(** * Encore booking page: the [HomeClient] component

    A shallow embedding of the state logic of the [HomeClient] React
    component (filter engine, selection reconciliation, availability
    toggle and inquiry composer), followed by the properties its
    specification states about it.

    Modelling conventions.
    - A React state cell is a field of the record [State]; a call of a
      state setter is an [Update], a function from the pending state to
      the next pending state.  Setters called with a value overwrite the
      cell, setters called with an updater function apply it to the
      pending value, and the updates an event queues are applied in the
      order of the calls.
    - An event handler is a closure over the values of the render it was
      created in.  Handlers therefore take the rendered state (the
      snapshot they read from) and return the [Update] they queue.
    - JavaScript strings are [string]; [===] on strings is [String.eqb];
      the truthiness test [!s] on a string is [isEmpty].
    - Rates and budgets are JavaScript numbers ([number]): an integer
      value, one of the two infinities, or [NaN].  [<=], [<], [Math.max],
      [Math.min] and [Number.isFinite] are [Number_leb], [Number_ltb],
      [Math_max], [Math_min] and [Number_isFinite], with the behaviour
      JavaScript gives them on infinities and on [NaN]. *)

From Stdlib Require Import List String ZArith Bool Lia.
From Stdlib Require Import Sorted Permutation.
From Stdlib Require QArith.
Import ListNotations.

Local Open Scope string_scope.
Local Open Scope Z_scope.

(** ** JavaScript numbers *)

Inductive number : Type :=
| Finite (z : Z)
| PosInfinity
| NegInfinity
| NaN.

Coercion Finite : Z >-> number.

(** [x <= y]: false as soon as one side is [NaN]. *)
Definition Number_leb (x y : number) : bool :=
  match x, y with
  | NaN, _ | _, NaN => false
  | NegInfinity, _ => true
  | _, PosInfinity => true
  | Finite a, Finite b => a <=? b
  | PosInfinity, _ => false
  | Finite _, NegInfinity => false
  end.

(** [x < y] *)
Definition Number_ltb (x y : number) : bool :=
  match x, y with
  | NaN, _ | _, NaN => false
  | PosInfinity, _ => false
  | _, NegInfinity => false
  | Finite a, Finite b => a <? b
  | NegInfinity, _ => true
  | Finite _, PosInfinity => true
  end.

(** [Math.max(x, y)]: [NaN] as soon as one argument is [NaN]. *)
Definition Math_max (x y : number) : number :=
  match x, y with
  | NaN, _ | _, NaN => NaN
  | PosInfinity, _ | _, PosInfinity => PosInfinity
  | NegInfinity, other | other, NegInfinity => other
  | Finite a, Finite b => Finite (Z.max a b)
  end.

(** [Math.min(x, y)] *)
Definition Math_min (x y : number) : number :=
  match x, y with
  | NaN, _ | _, NaN => NaN
  | NegInfinity, _ | _, NegInfinity => NegInfinity
  | PosInfinity, other | other, PosInfinity => other
  | Finite a, Finite b => Finite (Z.min a b)
  end.

(** [Number.isFinite(x)] *)
Definition Number_isFinite (x : number) : bool :=
  match x with
  | Finite _ => true
  | _ => false
  end.

Definition Number_le (x y : number) : Prop := Number_leb x y = true.

Definition Number_lt (x y : number) : Prop := Number_ltb x y = true.

Declare Scope number_scope.
Delimit Scope number_scope with number.

Notation "x <= y" := (Number_le x y) : number_scope.
Notation "x < y" := (Number_lt x y) : number_scope.
Notation "x <= y <= z" := (Number_le x y /\ Number_le y z) : number_scope.

(** ** Data model *)

Record Showcase : Type := mkShowcase {
  venue : string;
  city : string;
  date : string
}.

(** Modelled from the spec: the type [Artist] is imported from
    [@/data/artists], which is not part of the sources at hand.  The
    fields are those of the specification's data model, under the names
    the component reads them by. *)
Record Artist : Type := mkArtist {
  id : string;
  name : string;
  genres : list string;
  location : string;
  rate : number;
  rating : QArith_base.Q;
  description : string;
  coverImage : string;
  availability : list string;
  showcases : list Showcase
}.

Record BookingFormState : Type := mkForm {
  plannerName : string;
  plannerEmail : string;
  eventDetails : string
}.

(** [keyof BookingFormState] *)
Inductive FormField : Type :=
| PlannerName
| PlannerEmail
| EventDetails.

Definition eventTypes : list string :=
  [ "Corporate Gala"; "Private Celebration"; "Wedding";
    "Brand Activation"; "Festival Stage"; "Hospitality Lounge" ].

(** The state cells of the component, one field per [useState]. *)
Record State : Type := mkState {
  genreFilter : string;
  locationFilter : string;
  budget : number;
  eventType : string;
  selectedArtistId : string;
  selectedAvailability : string;
  formState : BookingFormState;
  successMessage : option string
}.

Definition Update : Type := State -> State.

(** ** JavaScript primitives used by the component *)

(** [!s] for a string [s]: only the empty string is falsy. *)
Definition isEmpty (s : string) : bool :=
  match s with
  | EmptyString => true
  | String _ _ => false
  end.

(** ** State setters *)

Definition setGenreFilter (v : string) : Update := fun s =>
  mkState v (locationFilter s) (budget s) (eventType s)
          (selectedArtistId s) (selectedAvailability s)
          (formState s) (successMessage s).

Definition setLocationFilter (v : string) : Update := fun s =>
  mkState (genreFilter s) v (budget s) (eventType s)
          (selectedArtistId s) (selectedAvailability s)
          (formState s) (successMessage s).

Definition setBudget (v : number) : Update := fun s =>
  mkState (genreFilter s) (locationFilter s) v (eventType s)
          (selectedArtistId s) (selectedAvailability s)
          (formState s) (successMessage s).

Definition setEventType (v : string) : Update := fun s =>
  mkState (genreFilter s) (locationFilter s) (budget s) v
          (selectedArtistId s) (selectedAvailability s)
          (formState s) (successMessage s).

Definition setSelectedArtistId (v : string) : Update := fun s =>
  mkState (genreFilter s) (locationFilter s) (budget s) (eventType s)
          v (selectedAvailability s)
          (formState s) (successMessage s).

(** [setSelectedAvailability(current => f(current))] *)
Definition updateSelectedAvailability (f : string -> string) : Update := fun s =>
  mkState (genreFilter s) (locationFilter s) (budget s) (eventType s)
          (selectedArtistId s) (f (selectedAvailability s))
          (formState s) (successMessage s).

(** [setSelectedAvailability(v)] *)
Definition setSelectedAvailability (v : string) : Update :=
  updateSelectedAvailability (fun _ => v).

(** [setFormState(prev => f(prev))] *)
Definition updateFormState (f : BookingFormState -> BookingFormState) : Update := fun s =>
  mkState (genreFilter s) (locationFilter s) (budget s) (eventType s)
          (selectedArtistId s) (selectedAvailability s)
          (f (formState s)) (successMessage s).

(** [setFormState(v)] *)
Definition setFormState (v : BookingFormState) : Update :=
  updateFormState (fun _ => v).

Definition setSuccessMessage (v : option string) : Update := fun s =>
  mkState (genreFilter s) (locationFilter s) (budget s) (eventType s)
          (selectedArtistId s) (selectedAvailability s)
          (formState s) v.

(** Updates queued one after the other: [u1 ;; u2] applies [u1] first. *)
Definition seqUpdate (u1 u2 : Update) : Update := fun s => u2 (u1 s).

Notation "u1 ;; u2" := (seqUpdate u1 u2) (at level 61, right associativity).

(** An early [return]: nothing more is queued. *)
Definition noUpdate : Update := fun s => s.

(** ** The component *)

Section HomeClient.

Variable initialArtists : list Artist.

(** [initialArtists[0]?.rate ?? 0] *)
Definition firstRate : number :=
  match initialArtists with
  | [] => 0
  | artist :: _ => rate artist
  end.

Definition maxRate : number :=
  fold_left (fun currentMax artist => Math_max currentMax (rate artist))
            initialArtists firstRate.

Definition minRate : number :=
  fold_left (fun currentMin artist => Math_min currentMin (rate artist))
            initialArtists firstRate.

Definition resolvedMinRate : number :=
  if Number_isFinite minRate then minRate else 0.

Definition resolvedMaxRate : number := Math_max resolvedMinRate maxRate.

(** The state of the first render: the initial value of every cell. *)
Definition initialState : State :=
  {| genreFilter := "All";
     locationFilter := "All";
     budget := resolvedMaxRate;
     eventType := hd EmptyString eventTypes;
     selectedArtistId :=
       match initialArtists with
       | [] => EmptyString
       | artist :: _ => id artist
       end;
     selectedAvailability := EmptyString;
     formState := mkForm EmptyString EmptyString EmptyString;
     successMessage := None |}.

(** The callback of [initialArtists.filter] in [filteredArtists]. *)
Definition matchesFilters (s : State) (artist : Artist) : bool :=
  let matchesGenre :=
    (genreFilter s =? "All")%string
    || existsb (fun genre => (genre =? genreFilter s)%string) (genres artist) in
  let matchesLocation :=
    (locationFilter s =? "All")%string
    || (location artist =? locationFilter s)%string in
  let matchesBudget := Number_leb (rate artist) (budget s) in
  matchesGenre && matchesLocation && matchesBudget.

Definition filteredArtists (s : State) : list Artist :=
  filter (matchesFilters s) initialArtists.

(** [filteredArtists.find(artist => artist.id === selectedArtistId) ?? null] *)
Definition selectedArtist (s : State) : option Artist :=
  find (fun artist => (id artist =? selectedArtistId s)%string)
       (filteredArtists s).

(** The genre and location pills offered by the filter card (the order
    in which they are displayed plays no role here). *)
Definition uniqueGenres : list string :=
  nodup string_dec (flat_map genres initialArtists).

Definition uniqueLocations : list string :=
  nodup string_dec (map location initialArtists).

(** *** The reconciliation effect

    [useEffect(..., [filteredArtists, selectedArtistId])]: the body of
    the effect, reading the rendered state [r]. *)
Definition reconcileEffect (r : State) : Update :=
  match filteredArtists r with
  | [] =>
      setSelectedArtistId EmptyString ;;
      setSelectedAvailability EmptyString
  | first :: _ =>
      let stillVisible :=
        existsb (fun artist => (id artist =? selectedArtistId r)%string)
                (filteredArtists r) in
      if negb stillVisible
      then setSelectedArtistId (id first) ;;
           setSelectedAvailability EmptyString
      else noUpdate
  end.

(** One run of the effect on a committed state. *)
Definition reconcile (s : State) : State := reconcileEffect s s.

(** *** Event handlers *)

Definition handleBookClick (artistId : string) : Update :=
  setSelectedArtistId artistId ;;
  setSelectedAvailability EmptyString ;;
  setSuccessMessage None.

Definition handleAvailabilityClick (slot : string) : Update :=
  updateSelectedAvailability
    (fun current => if (current =? slot)%string then EmptyString else slot).

Definition handleFormChange (field : FormField) (value : string) : Update :=
  updateFormState (fun prev =>
    match field with
    | PlannerName => mkForm value (plannerEmail prev) (eventDetails prev)
    | PlannerEmail => mkForm (plannerName prev) value (eventDetails prev)
    | EventDetails => mkForm (plannerName prev) (plannerEmail prev) value
    end).

Definition selectMessage : string :=
  "Select an artist and availability to confirm a request.".

Definition contactMessage : string :=
  "Please include your name and email so we can follow up.".

Definition confirmationMessage (artistName slot : string) : string :=
  ("Booking inquiry sent for " ++ artistName ++ " on " ++ slot
   ++ ". Expect a response within 24 hours.")%string.

(** [handleSubmit], created in the render of state [r]. *)
Definition handleSubmit (r : State) : Update :=
  match selectedArtist r with
  | None => setSuccessMessage (Some selectMessage)
  | Some artist =>
      if isEmpty (selectedAvailability r)
      then setSuccessMessage (Some selectMessage)
      else if isEmpty (plannerName (formState r))
              || isEmpty (plannerEmail (formState r))
      then setSuccessMessage (Some contactMessage)
      else
        setSuccessMessage
          (Some (confirmationMessage (name artist) (selectedAvailability r))) ;;
        setFormState (mkForm EmptyString EmptyString EmptyString) ;;
        setSelectedAvailability EmptyString
  end.

End HomeClient.

Arguments reconcile initialArtists s : simpl never.

(** ** User events

    One constructor per interactive element of the rendered page. *)
Inductive Event : Type :=
| ClickGenre (genre : string)              (* a genre pill, "All" included *)
| ClickLocation (loc : string)             (* a home-base pill *)
| ChangeBudget (value : number)            (* the budget range input *)
| ChangeEventType (value : string)         (* the select, or the panel input *)
| ClickRequest (artist : Artist)           (* "Request" on an artist card *)
| ClickCardSlot (artist : Artist) (slot : string) (* a slot pill on a card *)
| ClickPanelSlot (slot : string)           (* a slot pill in the booking panel *)
| ChangeForm (field : FormField) (value : string)
| Submit.

Section Events.

Variable initialArtists : list Artist.

(** The handler each element is wired to, as created by the render of
    state [r]. *)
Definition dispatch (r : State) (e : Event) : Update :=
  match e with
  | ClickGenre genre => setGenreFilter genre
  | ClickLocation loc => setLocationFilter loc
  | ChangeBudget value => setBudget value
  | ChangeEventType value => setEventType value
  | ClickRequest artist => handleBookClick (id artist)
  | ClickCardSlot artist slot =>
      handleBookClick (id artist) ;; handleAvailabilityClick slot
  | ClickPanelSlot slot => handleAvailabilityClick slot
  | ChangeForm field value => handleFormChange field value
  | Submit => handleSubmit initialArtists r
  end.

(** The elements the render of state [s] puts on the page: cards exist
    for the filtered artists only, and the booking form (slot pills,
    inputs, submit button) only while [selectedArtist] is not null.  The
    value of the range input is always a finite number; which finite
    numbers it offers is left open here. *)
Definition enabled (s : State) (e : Event) : Prop :=
  match e with
  | ClickGenre genre => genre = "All" \/ In genre (uniqueGenres initialArtists)
  | ClickLocation loc => loc = "All" \/ In loc (uniqueLocations initialArtists)
  | ChangeBudget value => Number_isFinite value = true
  | ChangeEventType value =>
      In value eventTypes \/ selectedArtist initialArtists s <> None
  | ClickRequest artist => In artist (filteredArtists initialArtists s)
  | ClickCardSlot artist slot =>
      In artist (filteredArtists initialArtists s) /\ In slot (availability artist)
  | ClickPanelSlot slot =>
      exists artist,
        selectedArtist initialArtists s = Some artist /\ In slot (availability artist)
  | ChangeForm _ _ => selectedArtist initialArtists s <> None
  | Submit => selectedArtist initialArtists s <> None
  end.

(** The state committed by the handler of [e] alone, before effects. *)
Definition handle (s : State) (e : Event) : State := dispatch s e s.

(** An event followed by the reconciliation effect. *)
Definition step (s : State) (e : Event) : State :=
  reconcile initialArtists (handle s e).

(** The states the page goes through: the one committed by the mount
    (the first render followed by the effect, which React runs after it),
    then one more for every element used. *)
Inductive reachable : State -> Prop :=
| reachable_mount :
    reachable (reconcile initialArtists (initialState initialArtists))
| reachable_step s e :
    reachable s -> enabled s e -> reachable (step s e).

End Events.

(** ** Notions the specification is phrased in *)

(** [OrderedSubset P l l']: [l'] keeps, in their order in [l], exactly the
    elements of [l] that satisfy [P]. *)
Inductive OrderedSubset {A : Type} (P : A -> Prop) : list A -> list A -> Prop :=
| OrderedSubset_nil : OrderedSubset P [] []
| OrderedSubset_keep x l l' :
    P x -> OrderedSubset P l l' -> OrderedSubset P (x :: l) (x :: l')
| OrderedSubset_drop x l l' :
    ~ P x -> OrderedSubset P l l' -> OrderedSubset P (x :: l) l'.

(** The three predicates of the filter contract. *)
Definition satisfiesCriteria (genre loc : string) (ceiling : number)
           (artist : Artist) : Prop :=
  (genre = "All" \/ In genre (genres artist))
  /\ (loc = "All" \/ location artist = loc)
  /\ (rate artist <= ceiling)%number.

(** [hay] contains [needle] as a substring. *)
Definition includes (hay needle : string) : Prop :=
  exists before after, hay = (before ++ needle ++ after)%string.

(** The selected id is the id of an artist of the filtered list. *)
Definition selectionVisible (initialArtists : list Artist) (s : State) : Prop :=
  exists artist,
    In artist (filteredArtists initialArtists s) /\ id artist = selectedArtistId s.

(** What one run of the effect establishes: either nothing is shown and
    nothing is selected, or the selected id is on display. *)
Definition reconciled (initialArtists : list Artist) (s : State) : Prop :=
  (filteredArtists initialArtists s = []
   /\ selectedArtistId s = EmptyString
   /\ selectedAvailability s = EmptyString)
  \/ selectionVisible initialArtists s.

(** A submission from state [s] is successful when it shows the
    confirmation for the selected artist and the chosen slot. *)
Definition submitSucceeds (initialArtists : list Artist) (s : State) : Prop :=
  exists artist,
    selectedArtist initialArtists s = Some artist
    /\ successMessage (handle initialArtists s Submit)
       = Some (confirmationMessage (name artist) (selectedAvailability s)).

(** ** A small roster, used to exercise the statements below *)

Definition lumen : Artist :=
  {| id := "lumen"; name := "Lumen Quartet"; genres := ["Jazz"; "Soul"];
     location := "Chicago"; rate := 4200; rating := QArith_base.Qmake 49 10;
     description := "Late-night jazz quartet";
     coverImage := "/covers/lumen.jpg";
     availability := ["Fri 12 Sep"; "Sat 20 Sep"];
     showcases := [mkShowcase "Blue Room" "Chicago" "2 Aug"] |}.

Definition vela : Artist :=
  {| id := "vela"; name := "Vela Rey"; genres := ["Pop"; "Soul"];
     location := "Austin"; rate := 6500; rating := QArith_base.Qmake 47 10;
     description := "Vocalist with a five-piece band";
     coverImage := "/covers/vela.jpg";
     availability := ["Sat 13 Sep"];
     showcases := [] |}.

Definition orbit : Artist :=
  {| id := "orbit"; name := "DJ Orbit"; genres := ["House"];
     location := "Chicago"; rate := 2800; rating := QArith_base.Qmake 45 10;
     description := "Open-format DJ";
     coverImage := "/covers/orbit.jpg";
     availability := ["Fri 12 Sep"; "Sun 14 Sep"];
     showcases := [mkShowcase "Skyline" "Chicago" "9 Aug"] |}.

Definition roster : list Artist := [lumen; vela; orbit].

(** A state with [lumen] selected, a slot chosen and the contact fields
    filled in. *)
Definition readyState : State :=
  {| genreFilter := "All"; locationFilter := "All"; budget := 6500;
     eventType := "Wedding";
     selectedArtistId := "lumen"; selectedAvailability := "Fri 12 Sep";
     formState := mkForm "Jordan Lee" "jordan@brand.com" "Rooftop, 120 guests";
     successMessage := None |}.

(** ** Derived displays

    The remaining [useMemo] values of the component and the conditions
    its markup branches on. *)

(** [set.add(x)] on a [Set<string>], kept in insertion order: a value
    already present is not added again. *)
Definition setAdd (set : list string) (x : string) : list string :=
  if existsb (fun y => (y =? x)%string) set then set else (set ++ [x])%list.

(** [Array.prototype.sort()] with the default comparator on strings:
    ascending order of the code units, computed here by insertion. *)
Fixpoint insertSorted (x : string) (sorted : list string) : list string :=
  match sorted with
  | [] => [x]
  | y :: rest =>
      if String.leb x y then x :: sorted else y :: insertSorted x rest
  end.

Definition sortStrings (l : list string) : list string :=
  fold_left (fun sorted x => insertSorted x sorted) l [].

Section Displays.

Variable initialArtists : list Artist.

(** The [Set] filled by the two nested [forEach] of [uniqueGenres]. *)
Definition genreSet : list string :=
  fold_left (fun set artist => fold_left setAdd (genres artist) set)
            initialArtists [].

(** [uniqueGenres] as the markup maps it to pills:
    [Array.from(genres).sort()]. *)
Definition uniqueGenres_sorted : list string := sortStrings genreSet.

(** [new Set(initialArtists.map((artist) => artist.location))] *)
Definition locationSet : list string :=
  fold_left setAdd (map location initialArtists) [].

(** [uniqueLocations] as the markup maps it to pills. *)
Definition uniqueLocations_sorted : list string := sortStrings locationSet.

(** [totalShowcases] *)
Definition totalShowcases : nat :=
  fold_left (fun count artist => (count + List.length (showcases artist))%nat)
            initialArtists 0%nat.

(** [filteredArtists.length === 0], the condition of the empty-state
    notice of the results column. *)
Definition noResults (s : State) : bool :=
  Nat.eqb (List.length (filteredArtists initialArtists s)) 0.

(** The heading of the booking panel:
    [selectedArtist ? selectedArtist.name : "Select an artist"]. *)
Definition panelHeading (s : State) : string :=
  match selectedArtist initialArtists s with
  | Some artist => name artist
  | None => "Select an artist"
  end.

(** The booking form is part of the markup only while [selectedArtist]
    is not null. *)
Definition formShown (s : State) : bool :=
  match selectedArtist initialArtists s with
  | Some _ => true
  | None => false
  end.

End Displays.

(** [form[field]], the value an input of the booking form displays. *)
Definition fieldValue (field : FormField) (form : BookingFormState) : string :=
  match field with
  | PlannerName => plannerName form
  | PlannerEmail => plannerEmail form
  | EventDetails => eventDetails form
  end.

(** The chosen slot, when there is one, is a slot offered by a roster
    artist carrying the selected id. *)
Definition slotOffered (initialArtists : list Artist) (s : State) : Prop :=
  selectedAvailability s = EmptyString
  \/ exists artist,
       In artist initialArtists
       /\ id artist = selectedArtistId s
       /\ In (selectedAvailability s) (availability artist).

(** A second roster, in which two artists share a rate and a genre. *)
Definition nova : Artist :=
  {| id := "nova"; name := "Nova Strings"; genres := ["Classical"; "Jazz"];
     location := "Boston"; rate := 2800; rating := QArith_base.Qmake 48 10;
     description := "String trio";
     coverImage := "/covers/nova.jpg";
     availability := ["Sat 20 Sep"];
     showcases := [mkShowcase "Atrium" "Boston" "16 Aug";
                   mkShowcase "Harbor Hall" "Boston" "30 Aug"] |}.

Definition tour : list Artist := [vela; nova; orbit; lumen].

(** Two artists whose rate is not a finite number. *)
Definition unpriced : Artist :=
  {| id := "unpriced"; name := "Open Mic Collective"; genres := ["Folk"];
     location := "Austin"; rate := NaN; rating := QArith_base.Qmake 40 10;
     description := "Rate on request";
     coverImage := "/covers/unpriced.jpg";
     availability := ["Sun 14 Sep"];
     showcases := [] |}.

Definition withdrawn : Artist :=
  {| id := "withdrawn"; name := "The Quiet Hours"; genres := ["Ambient"];
     location := "Boston"; rate := NegInfinity; rating := QArith_base.Qmake 43 10;
     description := "On hiatus";
     coverImage := "/covers/withdrawn.jpg";
     availability := [];
     showcases := [] |}.

(** * Properties *)

(** ** JavaScript numbers *)

Lemma Number_leb_trans (x y z : number) :
  Number_leb x y = true -> Number_leb y z = true -> Number_leb x z = true.
Proof.
  destruct x, y, z; simpl; try discriminate; try reflexivity.
  rewrite !Z.leb_le. lia.
Qed.

Lemma Number_le_antisym (x y : number) :
  (x <= y)%number -> (y <= x)%number -> x = y.
Proof.
  unfold Number_le.
  destruct x, y; simpl; try discriminate; try reflexivity.
  rewrite !Z.leb_le. intros Hxy Hyx. f_equal. lia.
Qed.

Lemma Number_le_refl (x : number) : x <> NaN -> (x <= x)%number.
Proof.
  unfold Number_le. destruct x; simpl; try reflexivity; [| congruence].
  intros _. apply Z.leb_refl.
Qed.

Lemma Number_le_not_NaN (x y : number) :
  (x <= y)%number -> x <> NaN /\ y <> NaN.
Proof. unfold Number_le. destruct x, y; simpl; split; congruence. Qed.

Lemma Number_lt_not_le (x y : number) :
  (x < y)%number -> Number_leb y x = false.
Proof.
  unfold Number_lt. destruct x, y; simpl; try discriminate; try reflexivity.
  rewrite Z.ltb_lt, Z.leb_gt. lia.
Qed.

Lemma Math_max_NaN (x y : number) :
  Math_max x y <> NaN <-> x <> NaN /\ y <> NaN.
Proof. destruct x, y; simpl; intuition congruence. Qed.

Lemma Math_min_NaN (x y : number) :
  Math_min x y <> NaN <-> x <> NaN /\ y <> NaN.
Proof. destruct x, y; simpl; intuition congruence. Qed.

Lemma Math_max_upper (x y : number) :
  x <> NaN -> y <> NaN ->
  (x <= Math_max x y)%number /\ (y <= Math_max x y)%number.
Proof.
  unfold Number_le.
  destruct x, y; simpl; intros Hx Hy; try congruence; split;
    try reflexivity; try apply Z.leb_refl; apply Z.leb_le; lia.
Qed.

Lemma Math_min_lower (x y : number) :
  x <> NaN -> y <> NaN ->
  (Math_min x y <= x)%number /\ (Math_min x y <= y)%number.
Proof.
  unfold Number_le.
  destruct x, y; simpl; intros Hx Hy; try congruence; split;
    try reflexivity; try apply Z.leb_refl; apply Z.leb_le; lia.
Qed.

Lemma Math_max_choice (x y : number) :
  Math_max x y = x \/ Math_max x y = y.
Proof.
  destruct x as [a | | |], y as [b | | |]; simpl; auto.
  destruct (Z.max_spec a b) as [[_ Hm] | [_ Hm]]; rewrite Hm; auto.
Qed.

Lemma Math_min_choice (x y : number) :
  Math_min x y = x \/ Math_min x y = y.
Proof.
  destruct x as [a | | |], y as [b | | |]; simpl; auto.
  destruct (Z.min_spec a b) as [[_ Hm] | [_ Hm]]; rewrite Hm; auto.
Qed.

Lemma Math_max_le (x y : number) :
  (x <= y)%number -> Math_max x y = y.
Proof.
  unfold Number_le.
  destruct x, y; simpl; try discriminate; try reflexivity.
  rewrite Z.leb_le. intros Hle. f_equal. lia.
Qed.

(** ** Filter engine *)

Section FilterEngine.

Variable initialArtists : list Artist.

Lemma some_genre_matches (genre : string) (tags : list string) :
  existsb (fun g => (g =? genre)%string) tags = true <-> In genre tags.
Proof.
  rewrite existsb_exists. split.
  - intros [g [Hin Heq]]. apply String.eqb_eq in Heq. now subst g.
  - intros Hin. exists genre. split; [exact Hin | apply String.eqb_refl].
Qed.

Lemma matchesFilters_true (s : State) (artist : Artist) :
  matchesFilters s artist = true
  <-> satisfiesCriteria (genreFilter s) (locationFilter s) (budget s) artist.
Proof.
  unfold matchesFilters, satisfiesCriteria.
  rewrite !andb_true_iff, !orb_true_iff, some_genre_matches.
  rewrite !String.eqb_eq. unfold Number_le. tauto.
Qed.

Lemma filter_OrderedSubset {A : Type} (f : A -> bool) (P : A -> Prop) :
  (forall x, f x = true <-> P x) ->
  forall l, OrderedSubset P l (filter f l).
Proof.
  intros Hf l. induction l as [| x l IH]; simpl.
  - constructor.
  - destruct (f x) eqn:Hx.
    + apply OrderedSubset_keep; [now apply Hf | exact IH].
    + apply OrderedSubset_drop; [| exact IH].
      intros HP. apply Hf in HP. congruence.
Qed.

(** [OrderedSubset] determines its result: there is one such list. *)
Lemma OrderedSubset_unique {A : Type} (P : A -> Prop) (l l1 l2 : list A) :
  OrderedSubset P l l1 -> OrderedSubset P l l2 -> l1 = l2.
Proof.
  intros H1. revert l2.
  induction H1 as [| x l l1 Hx _ IH | x l l1 Hx _ IH]; intros l2 H2;
    inversion H2; subst; try contradiction; auto.
  f_equal. now apply IH.
Qed.

Lemma filteredArtists_In (s : State) (artist : Artist) :
  In artist (filteredArtists initialArtists s)
  <-> In artist initialArtists
      /\ satisfiesCriteria (genreFilter s) (locationFilter s) (budget s) artist.
Proof.
  unfold filteredArtists. rewrite filter_In, matchesFilters_true. tauto.
Qed.

(** C1.  For every artist list and all criteria, the filtered list is
    the ordered subset of the full list made of the artists that satisfy
    the three predicates (genre is "All" or one of the artist's genres,
    location is "All" or the artist's location, rate at most the budget
    ceiling, the ceiling included); in particular an artist is in the
    filtered list exactly when it is in the full list and satisfies
    them. *)
Theorem filteredArtists_exact_subset (s : State) :
  OrderedSubset
    (satisfiesCriteria (genreFilter s) (locationFilter s) (budget s))
    initialArtists (filteredArtists initialArtists s)
  /\ (forall artist,
        In artist (filteredArtists initialArtists s)
        <-> In artist initialArtists
            /\ ((genreFilter s = "All" \/ In (genreFilter s) (genres artist))
                /\ (locationFilter s = "All" \/ location artist = locationFilter s)
                /\ (rate artist <= budget s)%number)).
Proof.
  split.
  - apply filter_OrderedSubset. intros artist. apply matchesFilters_true.
  - intros artist. apply filteredArtists_In.
Qed.

End FilterEngine.

(** ** Selection reconciliation *)

Section Reconciliation.

Variable initialArtists : list Artist.

Lemma stillVisible_true (s : State) (shown : list Artist) :
  existsb (fun artist => (id artist =? selectedArtistId s)%string) shown = true
  <-> exists artist, In artist shown /\ id artist = selectedArtistId s.
Proof.
  rewrite existsb_exists.
  split; intros [artist [Hin Heq]]; exists artist; split; auto;
    now apply String.eqb_eq.
Qed.

Lemma reconcile_empty (s : State) :
  filteredArtists initialArtists s = [] ->
  reconcile initialArtists s
  = (setSelectedArtistId EmptyString ;; setSelectedAvailability EmptyString) s.
Proof.
  intros Hnone. unfold reconcile, reconcileEffect. now rewrite Hnone.
Qed.

Lemma reconcile_hidden (s : State) (first : Artist) (rest : list Artist) :
  filteredArtists initialArtists s = first :: rest ->
  ~ selectionVisible initialArtists s ->
  reconcile initialArtists s
  = (setSelectedArtistId (id first) ;; setSelectedAvailability EmptyString) s.
Proof.
  intros Hshown Hhidden. unfold reconcile, reconcileEffect.
  rewrite Hshown.
  destruct (existsb _ (first :: rest)) eqn:Hvis; [| reflexivity].
  exfalso. apply Hhidden. unfold selectionVisible. rewrite Hshown.
  now apply stillVisible_true.
Qed.

Lemma reconcile_visible (s : State) :
  selectionVisible initialArtists s ->
  reconcile initialArtists s = s.
Proof.
  intros Hvis. unfold reconcile, reconcileEffect.
  destruct (filteredArtists initialArtists s) as [| first rest] eqn:Hshown.
  - destruct Hvis as [artist [Hin _]]. rewrite Hshown in Hin. destruct Hin.
  - unfold selectionVisible in Hvis. rewrite Hshown in Hvis.
    apply stillVisible_true in Hvis. now rewrite Hvis.
Qed.

(** The filtered list is a function of the three criteria alone. *)
Lemma filteredArtists_criteria (s s' : State) :
  genreFilter s' = genreFilter s ->
  locationFilter s' = locationFilter s ->
  budget s' = budget s ->
  filteredArtists initialArtists s' = filteredArtists initialArtists s.
Proof.
  intros Hg Hl Hb. unfold filteredArtists. apply filter_ext.
  intros artist. unfold matchesFilters. now rewrite Hg, Hl, Hb.
Qed.

Lemma reconcile_criteria (s : State) :
  genreFilter (reconcile initialArtists s) = genreFilter s
  /\ locationFilter (reconcile initialArtists s) = locationFilter s
  /\ budget (reconcile initialArtists s) = budget s.
Proof.
  unfold reconcile, reconcileEffect.
  destruct (filteredArtists initialArtists s) as [| first rest]; [now idtac |].
  destruct (negb _); now idtac.
Qed.

(** The effect touches neither the criteria nor the roster, so the
    filtered list is the same before and after it. *)
Lemma reconcile_filteredArtists (s : State) :
  filteredArtists initialArtists (reconcile initialArtists s)
  = filteredArtists initialArtists s.
Proof.
  destruct (reconcile_criteria s) as [Hg [Hl Hb]].
  now apply filteredArtists_criteria.
Qed.

(** C2.  The reconciliation step: when the filtered list is empty, the
    selected id and the chosen slot become empty; otherwise, when the
    selected id is the id of no artist of the filtered list, the selected
    id becomes the id of its first element and the slot becomes empty;
    otherwise the state (selected id and slot included) is unchanged. *)
Theorem reconcile_case_split (s : State) :
  (filteredArtists initialArtists s = [] ->
     selectedArtistId (reconcile initialArtists s) = EmptyString
     /\ selectedAvailability (reconcile initialArtists s) = EmptyString)
  /\ (forall first rest,
        filteredArtists initialArtists s = first :: rest ->
        (forall artist, In artist (first :: rest) ->
                        id artist <> selectedArtistId s) ->
        selectedArtistId (reconcile initialArtists s) = id first
        /\ selectedAvailability (reconcile initialArtists s) = EmptyString)
  /\ (forall artist,
        In artist (filteredArtists initialArtists s) ->
        id artist = selectedArtistId s ->
        reconcile initialArtists s = s).
Proof.
  split; [| split].
  - intros Hnone. rewrite (reconcile_empty s Hnone). split; reflexivity.
  - intros first rest Hshown Hnot.
    assert (Hhidden : ~ selectionVisible initialArtists s).
    { intros [artist [Hin Heq]]. rewrite Hshown in Hin.
      exact (Hnot artist Hin Heq). }
    rewrite (reconcile_hidden s first rest Hshown Hhidden).
    split; reflexivity.
  - intros artist Hin Heq. apply reconcile_visible. now exists artist.
Qed.

End Reconciliation.

Lemma reconcile_case_split_witness :
  (* budget below every rate: nothing is shown *)
  (selectedArtistId (reconcile roster (setBudget 100 readyState)) = EmptyString
   /\ selectedAvailability (reconcile roster (setBudget 100 readyState)) = EmptyString)
  (* only [orbit] plays House: the selection moves from [lumen] to it *)
  /\ (selectedArtistId (reconcile roster (setGenreFilter "House" readyState)) = id orbit
      /\ selectedAvailability (reconcile roster (setGenreFilter "House" readyState))
         = EmptyString)
  (* [lumen] plays Jazz: nothing changes *)
  /\ reconcile roster (setGenreFilter "Jazz" readyState)
     = setGenreFilter "Jazz" readyState.
Proof.
  split; [| split].
  - apply (proj1 (reconcile_case_split roster (setBudget 100 readyState))).
    reflexivity.
  - apply (proj1 (proj2 (reconcile_case_split roster
                           (setGenreFilter "House" readyState))) orbit []).
    + reflexivity.
    + intros artist [Heq | []] Hid. subst artist. discriminate Hid.
  - apply (proj2 (proj2 (reconcile_case_split roster
                           (setGenreFilter "Jazz" readyState))) lumen).
    + left. reflexivity.
    + reflexivity.
Defined.

(** ** Mount *)

Lemma firstRate_cases (l : list Artist) :
  (l = [] /\ firstRate l = Finite 0)
  \/ exists first rest, l = first :: rest /\ firstRate l = rate first.
Proof. destruct l as [| first rest]; [left | right]; eauto. Qed.

Lemma firstRate_not_NaN (l : list Artist) :
  Forall (fun artist => rate artist <> NaN) l -> firstRate l <> NaN.
Proof.
  intros Hl. destruct l as [| first rest]; simpl; [discriminate |].
  now inversion Hl.
Qed.

Lemma fold_max_NaN (l : list Artist) (start : number) :
  fold_left (fun currentMax artist => Math_max currentMax (rate artist)) l start
  <> NaN
  <-> start <> NaN /\ Forall (fun artist => rate artist <> NaN) l.
Proof.
  revert start. induction l as [| a l IH]; intros start; simpl.
  - split; [intros Hs; split; [exact Hs | constructor] | tauto].
  - rewrite IH, Math_max_NaN. split.
    + intros [[Hs Ha] Hl]. split; [exact Hs | now constructor].
    + intros [Hs Hl]. inversion Hl; subst. tauto.
Qed.

Lemma fold_min_NaN (l : list Artist) (start : number) :
  fold_left (fun currentMin artist => Math_min currentMin (rate artist)) l start
  <> NaN
  <-> start <> NaN /\ Forall (fun artist => rate artist <> NaN) l.
Proof.
  revert start. induction l as [| a l IH]; intros start; simpl.
  - split; [intros Hs; split; [exact Hs | constructor] | tauto].
  - rewrite IH, Math_min_NaN. split.
    + intros [[Hs Ha] Hl]. split; [exact Hs | now constructor].
    + intros [Hs Hl]. inversion Hl; subst. tauto.
Qed.

Lemma fold_max_bounds (l : list Artist) (start : number) :
  start <> NaN ->
  Forall (fun artist => rate artist <> NaN) l ->
  let m := fold_left (fun currentMax a => Math_max currentMax (rate a)) l start in
  (start <= m)%number /\ Forall (fun artist => (rate artist <= m)%number) l.
Proof.
  revert start. induction l as [| a l IH]; intros start Hs Hl; simpl.
  - split; [now apply Number_le_refl | constructor].
  - inversion Hl as [| x xs Ha Hrest]; subst.
    destruct (Math_max_upper start (rate a) Hs Ha) as [Hstart Hrate].
    assert (Hm : Math_max start (rate a) <> NaN) by now apply Math_max_NaN.
    destruct (IH _ Hm Hrest) as [Hlow Hall].
    split; [exact (Number_leb_trans _ _ _ Hstart Hlow) |].
    constructor; [exact (Number_leb_trans _ _ _ Hrate Hlow) | exact Hall].
Qed.

Lemma fold_min_bounds (l : list Artist) (start : number) :
  start <> NaN ->
  Forall (fun artist => rate artist <> NaN) l ->
  let m := fold_left (fun currentMin a => Math_min currentMin (rate a)) l start in
  (m <= start)%number /\ Forall (fun artist => (m <= rate artist)%number) l.
Proof.
  revert start. induction l as [| a l IH]; intros start Hs Hl; simpl.
  - split; [now apply Number_le_refl | constructor].
  - inversion Hl as [| x xs Ha Hrest]; subst.
    destruct (Math_min_lower start (rate a) Hs Ha) as [Hstart Hrate].
    assert (Hm : Math_min start (rate a) <> NaN) by now apply Math_min_NaN.
    destruct (IH _ Hm Hrest) as [Hup Hall].
    split; [exact (Number_leb_trans _ _ _ Hup Hstart) |].
    constructor; [exact (Number_leb_trans _ _ _ Hup Hrate) | exact Hall].
Qed.

Lemma fold_max_attained (l : list Artist) (start : number) :
  let m := fold_left (fun currentMax a => Math_max currentMax (rate a)) l start in
  m = start \/ exists artist, In artist l /\ rate artist = m.
Proof.
  revert start. induction l as [| a l IH]; intros start; simpl.
  - now left.
  - destruct (IH (Math_max start (rate a))) as [Hm | [b [Hin Hb]]].
    + rewrite Hm. destruct (Math_max_choice start (rate a)) as [Hc | Hc].
      * now left.
      * right. exists a. split; [now left | congruence].
    + right. exists b. split; [now right | exact Hb].
Qed.

Lemma fold_min_attained (l : list Artist) (start : number) :
  let m := fold_left (fun currentMin a => Math_min currentMin (rate a)) l start in
  m = start \/ exists artist, In artist l /\ rate artist = m.
Proof.
  revert start. induction l as [| a l IH]; intros start; simpl.
  - now left.
  - destruct (IH (Math_min start (rate a))) as [Hm | [b [Hin Hb]]].
    + rewrite Hm. destruct (Math_min_choice start (rate a)) as [Hc | Hc].
      * now left.
      * right. exists a. split; [now left | congruence].
    + right. exists b. split; [now right | exact Hb].
Qed.

Lemma maxRate_upper (l : list Artist) :
  Forall (fun artist => rate artist <> NaN) l ->
  Forall (fun artist => (rate artist <= maxRate l)%number) l.
Proof.
  intros Hl. apply fold_max_bounds; [now apply firstRate_not_NaN | exact Hl].
Qed.

Lemma minRate_lower (l : list Artist) :
  Forall (fun artist => rate artist <> NaN) l ->
  Forall (fun artist => (minRate l <= rate artist)%number) l.
Proof.
  intros Hl. apply fold_min_bounds; [now apply firstRate_not_NaN | exact Hl].
Qed.

Lemma minRate_le_maxRate (l : list Artist) :
  Forall (fun artist => rate artist <> NaN) l ->
  (minRate l <= maxRate l)%number.
Proof.
  intros Hl. pose proof (firstRate_not_NaN l Hl) as Hs.
  destruct (fold_min_bounds l (firstRate l) Hs Hl) as [Hlow _].
  destruct (fold_max_bounds l (firstRate l) Hs Hl) as [Hup _].
  exact (Number_leb_trans _ _ _ Hlow Hup).
Qed.

Lemma maxRate_attained (l : list Artist) (first : Artist) (rest : list Artist) :
  l = first :: rest ->
  exists artist, In artist l /\ rate artist = maxRate l.
Proof.
  intros Hl. destruct (fold_max_attained l (firstRate l)) as [Hm | Hex];
    [| exact Hex].
  exists first. split; [rewrite Hl; now left |].
  unfold maxRate. rewrite Hm. now rewrite Hl.
Qed.

Lemma minRate_attained (l : list Artist) (first : Artist) (rest : list Artist) :
  l = first :: rest ->
  exists artist, In artist l /\ rate artist = minRate l.
Proof.
  intros Hl. destruct (fold_min_attained l (firstRate l)) as [Hm | Hex];
    [| exact Hex].
  exists first. split; [rewrite Hl; now left |].
  unfold minRate. rewrite Hm. now rewrite Hl.
Qed.

(** The lower bound of the slider is never [NaN]: a [minRate] that is not
    finite is replaced by 0. *)
Lemma resolvedMinRate_not_NaN (l : list Artist) : resolvedMinRate l <> NaN.
Proof. unfold resolvedMinRate. destruct (minRate l); simpl; discriminate. Qed.

Lemma resolvedMaxRate_no_NaN (l : list Artist) :
  resolvedMaxRate l <> NaN -> Forall (fun artist => rate artist <> NaN) l.
Proof.
  unfold resolvedMaxRate. intros Hmax.
  apply Math_max_NaN in Hmax. destruct Hmax as [_ Hmax].
  now apply fold_max_NaN in Hmax.
Qed.

Lemma rate_le_resolvedMaxRate (l : list Artist) :
  Forall (fun artist => rate artist <> NaN) l ->
  Forall (fun artist => (rate artist <= resolvedMaxRate l)%number) l.
Proof.
  intros Hl.
  assert (Hmax : maxRate l <> NaN).
  { apply fold_max_NaN. split; [now apply firstRate_not_NaN | exact Hl]. }
  destruct (Math_max_upper _ _ (resolvedMinRate_not_NaN l) Hmax) as [_ Hup].
  eapply Forall_impl; [| exact (maxRate_upper l Hl)].
  intros artist Hrate. exact (Number_leb_trans _ _ _ Hrate Hup).
Qed.

Lemma resolvedMaxRate_maxRate (l : list Artist) :
  Forall (fun artist => rate artist <> NaN /\ rate artist <> NegInfinity) l ->
  resolvedMaxRate l = maxRate l.
Proof.
  intros Hl.
  assert (Hnan : Forall (fun artist => rate artist <> NaN) l)
    by (eapply Forall_impl; [| exact Hl]; intros a [Ha _]; exact Ha).
  pose proof (minRate_le_maxRate l Hnan) as Hle.
  assert (Hlow : minRate l <> NegInfinity).
  { rewrite Forall_forall in Hl.
    destruct (fold_min_attained l (firstRate l)) as [Hm | [a [Hin Ha]]].
    - unfold minRate. rewrite Hm.
      destruct (firstRate_cases l) as [[_ Hf] | [first [rest [Hshape Hf]]]];
        rewrite Hf; [discriminate |].
      apply (Hl first). rewrite Hshape. now left.
    - unfold minRate. rewrite <- Ha. now apply (Hl a). }
  unfold resolvedMaxRate, resolvedMinRate.
  destruct (minRate l) as [m | | |] eqn:Hmin.
  - change (Math_max m (maxRate l) = maxRate l). now apply Math_max_le.
  - change (Math_max 0 (maxRate l) = maxRate l).
    unfold Number_le in Hle. destruct (maxRate l); simpl in Hle;
      try discriminate Hle; reflexivity.
  - congruence.
  - apply Number_le_not_NaN in Hle. destruct Hle as [Hle _]. congruence.
Qed.

Lemma filter_everything {A : Type} (f : A -> bool) (l : list A) :
  Forall (fun x => f x = true) l -> filter f l = l.
Proof.
  induction 1 as [| x l Hx _ IH]; simpl; [reflexivity |].
  now rewrite Hx, IH.
Qed.

Lemma initial_filteredArtists (l : list Artist) :
  Forall (fun artist => rate artist <> NaN) l ->
  filteredArtists l (initialState l) = l.
Proof.
  intros Hl. unfold filteredArtists. apply filter_everything.
  eapply Forall_impl; [| exact (rate_le_resolvedMaxRate l Hl)].
  intros artist Hrate. unfold matchesFilters. simpl. exact Hrate.
Qed.

Lemma initial_selection (l : list Artist) (first : Artist) (rest : list Artist) :
  Forall (fun artist => rate artist <> NaN) l ->
  l = first :: rest ->
  selectionVisible l (initialState l).
Proof.
  intros Hnan Hl. exists first. rewrite (initial_filteredArtists l Hnan).
  split; [rewrite Hl; now left |].
  unfold initialState. simpl. now rewrite Hl.
Qed.

(** C10, amended.  When no artist's rate is NaN or -Infinity, at mount the
    budget ceiling is the maximum rate over all artists: every rate is at
    most it, it is the rate of some artist when there is one, and it is 0
    for an empty roster.  With the initial "All" criteria the filtered
    list is therefore the full list, and the initially selected id is
    that of the first artist, who is in the filtered list. *)
Theorem mount_shows_everyone (initialArtists : list Artist) :
  Forall (fun artist => rate artist <> NaN /\ rate artist <> NegInfinity)
         initialArtists ->
  budget (initialState initialArtists) = maxRate initialArtists
  /\ Forall (fun artist =>
               (rate artist <= budget (initialState initialArtists))%number)
            initialArtists
  /\ genreFilter (initialState initialArtists) = "All"
  /\ locationFilter (initialState initialArtists) = "All"
  /\ filteredArtists initialArtists (initialState initialArtists) = initialArtists
  /\ match initialArtists with
     | [] =>
         budget (initialState initialArtists) = 0
         /\ selectedArtistId (initialState initialArtists) = EmptyString
     | first :: _ =>
         (exists artist,
            In artist initialArtists
            /\ rate artist = budget (initialState initialArtists))
         /\ selectedArtistId (initialState initialArtists) = id first
         /\ In first (filteredArtists initialArtists (initialState initialArtists))
     end.
Proof.
  intros Hrates.
  assert (Hnan : Forall (fun artist => rate artist <> NaN) initialArtists)
    by (eapply Forall_impl; [| exact Hrates]; intros a [Ha _]; exact Ha).
  assert (Hbudget : budget (initialState initialArtists) = maxRate initialArtists)
    by now apply resolvedMaxRate_maxRate.
  pose proof (initial_filteredArtists initialArtists Hnan) as Hshown.
  repeat match goal with |- _ /\ _ => split end; try reflexivity.
  - exact Hbudget.
  - rewrite Hbudget. now apply maxRate_upper.
  - exact Hshown.
  - rewrite Hshown, Hbudget. clear Hshown Hbudget Hnan Hrates.
    destruct initialArtists as [| first rest] eqn:Hl.
    + split; reflexivity.
    + split; [| split].
      * apply (maxRate_attained _ first rest). reflexivity.
      * reflexivity.
      * now left.
Qed.

Lemma mount_shows_everyone_witness :
  budget (initialState roster) = 6500
  /\ filteredArtists roster (initialState roster) = roster
  /\ selectedArtistId (initialState roster) = "lumen"
  /\ In lumen (filteredArtists roster (initialState roster)).
Proof.
  assert (Hrates : Forall (fun artist => rate artist <> NaN
                                         /\ rate artist <> NegInfinity) roster).
  { repeat constructor; discriminate. }
  destruct (mount_shows_everyone roster Hrates)
    as [Hbudget [_ [_ [_ [Hshown [_ [Hid Hin]]]]]]].
  split; [exact Hbudget | split; [exact Hshown | split; [exact Hid | exact Hin]]].
Defined.

(** C10, as stated, fails on rates that are not finite numbers.  With a
    NaN rate in the roster the initial budget is NaN and nobody is on
    display; with -Infinity as the only rate the initial budget is 0,
    which is the rate of no artist. *)
Lemma mount_with_non_finite_rates :
  (budget (initialState [unpriced; orbit]) = NaN
   /\ filteredArtists [unpriced; orbit] (initialState [unpriced; orbit]) = []
   /\ selectedArtistId (initialState [unpriced; orbit]) = "unpriced")
  /\ (budget (initialState [withdrawn]) = 0
      /\ maxRate [withdrawn] = NegInfinity)
  /\ ~ (forall initialArtists : list Artist,
          filteredArtists initialArtists (initialState initialArtists)
          = initialArtists)
  /\ ~ (forall initialArtists : list Artist,
          budget (initialState initialArtists) = maxRate initialArtists).
Proof.
  split; [repeat split | split; [split; reflexivity | split]].
  - intros Hclaim. specialize (Hclaim [unpriced; orbit]). discriminate Hclaim.
  - intros Hclaim. specialize (Hclaim [withdrawn]). discriminate Hclaim.
Qed.

(** ** The selection invariant *)

Section Invariant.

Variable initialArtists : list Artist.

Lemma selectionVisible_dec (s : State) :
  {selectionVisible initialArtists s} + {~ selectionVisible initialArtists s}.
Proof.
  destruct (existsb (fun artist => (id artist =? selectedArtistId s)%string)
                    (filteredArtists initialArtists s)) eqn:Hvis.
  - left. now apply stillVisible_true.
  - right. intros Hex. apply stillVisible_true in Hex. congruence.
Qed.

Lemma reconcile_reconciled (s : State) : reconciled initialArtists (reconcile initialArtists s).
Proof.
  destruct (selectionVisible_dec s) as [Hvis | Hhidden].
  - right. now rewrite reconcile_visible.
  - destruct (filteredArtists initialArtists s) as [| first rest] eqn:Hshown.
    + left. rewrite reconcile_filteredArtists, (reconcile_empty _ s Hshown).
      split; [exact Hshown | split; reflexivity].
    + right. exists first.
      rewrite reconcile_filteredArtists, Hshown.
      rewrite (reconcile_hidden _ s first rest Hshown Hhidden).
      split; [now left | reflexivity].
Qed.

(** A reconciled state is a fixed point of the effect, so running the
    effect once after an event is the same as running it until the
    state no longer changes. *)
Lemma reconciled_fixed (s : State) :
  reconciled initialArtists s -> reconcile initialArtists s = s.
Proof.
  intros [[Hnone [Hid Hslot]] | Hvis]; [| now apply reconcile_visible].
  rewrite (reconcile_empty _ s Hnone).
  destruct s; simpl in *; now subst.
Qed.

Lemma reconcile_idempotent (s : State) :
  reconcile initialArtists (reconcile initialArtists s)
  = reconcile initialArtists s.
Proof. apply reconciled_fixed, reconcile_reconciled. Qed.

(** When no rate is NaN the first render is already reconciled, and the
    effect run by the mount changes nothing. *)
Lemma initialState_reconciled :
  Forall (fun artist => rate artist <> NaN) initialArtists ->
  reconciled initialArtists (initialState initialArtists).
Proof.
  intros Hnan.
  assert (Hshape : initialArtists = []
                   \/ exists first rest, initialArtists = first :: rest).
  { destruct initialArtists as [| first rest]; [now left | right; eauto]. }
  destruct Hshape as [Hl | [first [rest Hl]]].
  - left. split; [| split].
    + rewrite (initial_filteredArtists _ Hnan). exact Hl.
    + unfold initialState. simpl. now rewrite Hl.
    + reflexivity.
  - right. now apply (initial_selection _ first rest).
Qed.

Lemma reachable_initialState :
  Forall (fun artist => rate artist <> NaN) initialArtists ->
  reachable initialArtists (initialState initialArtists).
Proof.
  intros Hnan.
  rewrite <- (reconciled_fixed _ (initialState_reconciled Hnan)).
  apply reachable_mount.
Qed.

Lemma reachable_reconciled (s : State) :
  reachable initialArtists s -> reconciled initialArtists s.
Proof.
  induction 1 as [| s e _ _ _]; apply reconcile_reconciled.
Qed.

Lemma filteredArtists_incl (s : State) :
  incl (filteredArtists initialArtists s) initialArtists.
Proof. intros artist Hin. now apply filteredArtists_In in Hin. Qed.

(** C3.  In every state reachable from the initial state by user events,
    each followed by the reconciliation effect, a non-empty selected id
    is the id of an artist of the current filtered list, and the
    filtered list is included in the full artist list. *)
Theorem selection_invariant (s : State) :
  reachable initialArtists s ->
  (selectedArtistId s <> EmptyString -> selectionVisible initialArtists s)
  /\ incl (filteredArtists initialArtists s) initialArtists.
Proof.
  intros Hreach. split; [| apply filteredArtists_incl].
  intros Hsome.
  destruct (reachable_reconciled s Hreach) as [[_ [Hid _]] | Hvis].
  - contradiction.
  - exact Hvis.
Qed.

End Invariant.

Lemma selection_invariant_witness :
  let s := step roster (step roster (initialState roster) (ClickGenre "House"))
                (ClickCardSlot orbit "Sun 14 Sep") in
  selectedArtistId s = "orbit"
  /\ selectionVisible roster s
  /\ incl (filteredArtists roster s) roster.
Proof.
  intros s.
  assert (Hreach : reachable roster s).
  { apply reachable_step.
    - apply reachable_step; [apply reachable_initialState; repeat constructor; discriminate |].
      right. vm_compute. tauto.
    - split; [left; reflexivity | vm_compute; tauto]. }
  destruct (selection_invariant roster s Hreach) as [Hvis Hincl].
  split; [reflexivity | split; [| exact Hincl]].
  apply Hvis. discriminate.
Defined.

(** ** Inquiry composer *)

Section InquiryComposer.

Variable initialArtists : list Artist.

Lemma isEmpty_true (s : string) : isEmpty s = true <-> s = EmptyString.
Proof. destruct s; simpl; split; congruence. Qed.

Lemma isEmpty_false (s : string) : isEmpty s = false <-> s <> EmptyString.
Proof. destruct s; simpl; split; congruence. Qed.

Lemma includes_middle (before needle after : string) :
  includes (before ++ needle ++ after) needle.
Proof. now exists before, after. Qed.

Lemma append_assoc (a b c : string) :
  ((a ++ b) ++ c = a ++ b ++ c)%string.
Proof. induction a as [| ch a IH]; simpl; [reflexivity | now rewrite IH]. Qed.

Lemma confirmationMessage_includes (artistName slot : string) :
  includes (confirmationMessage artistName slot) artistName
  /\ includes (confirmationMessage artistName slot) slot.
Proof.
  unfold confirmationMessage. split.
  - apply includes_middle.
  - exists ("Booking inquiry sent for " ++ artistName ++ " on ")%string,
           ". Expect a response within 24 hours.".
    now rewrite !append_assoc.
Qed.

(** The three messages are told apart by their first letter. *)
Lemma confirmationMessage_distinct (artistName slot : string) :
  confirmationMessage artistName slot <> selectMessage
  /\ confirmationMessage artistName slot <> contactMessage.
Proof. split; discriminate. Qed.

Lemma selectedArtist_visible (s : State) (artist : Artist) :
  selectedArtist initialArtists s = Some artist ->
  selectionVisible initialArtists s.
Proof.
  intros Hsel. apply find_some in Hsel. destruct Hsel as [Hin Hid].
  exists artist. split; [exact Hin | now apply String.eqb_eq].
Qed.

(** The submit handler on its three paths. *)
Lemma handleSubmit_accept (s : State) (artist : Artist) :
  selectedArtist initialArtists s = Some artist ->
  selectedAvailability s <> EmptyString ->
  plannerName (formState s) <> EmptyString ->
  plannerEmail (formState s) <> EmptyString ->
  handleSubmit initialArtists s
  = (setSuccessMessage
       (Some (confirmationMessage (name artist) (selectedAvailability s))) ;;
     setFormState (mkForm EmptyString EmptyString EmptyString) ;;
     setSelectedAvailability EmptyString).
Proof.
  intros Hsel Hslot Hname Hmail. unfold handleSubmit. rewrite Hsel.
  apply isEmpty_false in Hslot, Hname, Hmail.
  now rewrite Hslot, Hname, Hmail.
Qed.

Lemma handleSubmit_no_selection (s : State) :
  selectedArtist initialArtists s = None
  \/ selectedAvailability s = EmptyString ->
  handleSubmit initialArtists s = setSuccessMessage (Some selectMessage).
Proof.
  intros Hmissing. unfold handleSubmit.
  destruct (selectedArtist initialArtists s) as [artist |]; [| reflexivity].
  destruct Hmissing as [Hsel | Hslot]; [discriminate |].
  now rewrite Hslot.
Qed.

Lemma handleSubmit_no_contact (s : State) (artist : Artist) :
  selectedArtist initialArtists s = Some artist ->
  selectedAvailability s <> EmptyString ->
  plannerName (formState s) = EmptyString
  \/ plannerEmail (formState s) = EmptyString ->
  handleSubmit initialArtists s = setSuccessMessage (Some contactMessage).
Proof.
  intros Hsel Hslot Hblank. unfold handleSubmit. rewrite Hsel.
  apply isEmpty_false in Hslot. rewrite Hslot.
  destruct Hblank as [Hname | Hmail].
  - now rewrite Hname.
  - rewrite Hmail. now rewrite orb_true_r.
Qed.

(** C4.  Submitting while an artist is selected, a slot is chosen and
    planner name and email are non-empty shows a message that contains
    the artist's name and the slot, empties planner name, planner email
    and event details, clears the slot and keeps the selected artist
    id; the reconciliation effect that follows changes nothing. *)
Theorem submit_success (s : State) (artist : Artist) :
  selectedArtist initialArtists s = Some artist ->
  selectedAvailability s <> EmptyString ->
  plannerName (formState s) <> EmptyString ->
  plannerEmail (formState s) <> EmptyString ->
  let s' := handle initialArtists s Submit in
  (exists message,
      successMessage s' = Some message
      /\ message = confirmationMessage (name artist) (selectedAvailability s)
      /\ includes message (name artist)
      /\ includes message (selectedAvailability s))
  /\ plannerName (formState s') = EmptyString
  /\ plannerEmail (formState s') = EmptyString
  /\ eventDetails (formState s') = EmptyString
  /\ selectedAvailability s' = EmptyString
  /\ selectedArtistId s' = selectedArtistId s
  /\ step initialArtists s Submit = s'.
Proof.
  intros Hsel Hslot Hname Hmail s'.
  assert (Hs' : s' = (setSuccessMessage
                        (Some (confirmationMessage (name artist)
                                                   (selectedAvailability s))) ;;
                      setFormState (mkForm EmptyString EmptyString EmptyString) ;;
                      setSelectedAvailability EmptyString) s).
  { unfold s', handle, dispatch.
    now rewrite (handleSubmit_accept s artist Hsel Hslot Hname Hmail). }
  split.
  - exists (confirmationMessage (name artist) (selectedAvailability s)).
    rewrite Hs'. split; [reflexivity | split; [reflexivity |]].
    apply confirmationMessage_includes.
  - rewrite Hs'. repeat (split; [reflexivity |]).
    unfold step. fold s'. rewrite Hs'. apply reconcile_visible.
    destruct (selectedArtist_visible s artist Hsel) as [shown [Hin Hid]].
    exists shown. split; [| exact Hid].
    erewrite filteredArtists_criteria; [exact Hin | reflexivity ..].
Qed.

(** C5.  Submitting with no selected artist or no chosen slot only sets
    the status message asking for an artist and an availability: planner
    name, planner email, event details, selected artist id and chosen
    slot are as before. *)
Theorem submit_without_selection (s : State) :
  selectedArtist initialArtists s = None
  \/ selectedAvailability s = EmptyString ->
  let s' := handle initialArtists s Submit in
  successMessage s'
  = Some "Select an artist and availability to confirm a request."
  /\ formState s' = formState s
  /\ selectedArtistId s' = selectedArtistId s
  /\ selectedAvailability s' = selectedAvailability s
  /\ s' = setSuccessMessage (successMessage s') s.
Proof.
  intros Hmissing s'. unfold s', handle, dispatch.
  rewrite (handleSubmit_no_selection s Hmissing).
  repeat split.
Qed.

(** C6.  Submitting with an artist and a slot but an empty planner name
    or an empty planner email only sets a status message, which is not a
    confirmation: the form fields and the chosen slot are as before. *)
Theorem submit_without_contact (s : State) (artist : Artist) :
  selectedArtist initialArtists s = Some artist ->
  selectedAvailability s <> EmptyString ->
  plannerName (formState s) = EmptyString
  \/ plannerEmail (formState s) = EmptyString ->
  let s' := handle initialArtists s Submit in
  successMessage s'
  = Some "Please include your name and email so we can follow up."
  /\ (forall artistName slot,
        successMessage s' <> Some (confirmationMessage artistName slot))
  /\ ~ submitSucceeds initialArtists s
  /\ formState s' = formState s
  /\ selectedAvailability s' = selectedAvailability s
  /\ s' = setSuccessMessage (successMessage s') s.
Proof.
  intros Hsel Hslot Hblank s'.
  assert (Hs' : s' = setSuccessMessage (Some contactMessage) s).
  { unfold s', handle, dispatch.
    now rewrite (handleSubmit_no_contact s artist Hsel Hslot Hblank). }
  assert (Hnot : forall artistName slot,
             successMessage s' <> Some (confirmationMessage artistName slot)).
  { intros artistName slot. rewrite Hs'. discriminate. }
  split; [now rewrite Hs' |].
  split; [exact Hnot |].
  split.
  - intros [other [_ Hmsg]]. fold s' in Hmsg. exact (Hnot _ _ Hmsg).
  - rewrite Hs'. repeat split.
Qed.

End InquiryComposer.

Lemma submit_success_witness :
  let s' := handle roster readyState Submit in
  (exists message,
      successMessage s' = Some message
      /\ message = confirmationMessage "Lumen Quartet" "Fri 12 Sep"
      /\ includes message "Lumen Quartet"
      /\ includes message "Fri 12 Sep")
  /\ plannerName (formState s') = EmptyString
  /\ plannerEmail (formState s') = EmptyString
  /\ eventDetails (formState s') = EmptyString
  /\ selectedAvailability s' = EmptyString
  /\ selectedArtistId s' = "lumen"
  /\ step roster readyState Submit = s'.
Proof.
  apply (submit_success roster readyState lumen);
    [reflexivity | discriminate ..].
Defined.

Lemma submit_without_selection_witness :
  let s := setSelectedAvailability EmptyString readyState in
  let s' := handle roster s Submit in
  successMessage s'
  = Some "Select an artist and availability to confirm a request."
  /\ formState s' = formState s
  /\ selectedArtistId s' = selectedArtistId s
  /\ selectedAvailability s' = selectedAvailability s
  /\ s' = setSuccessMessage (successMessage s') s.
Proof.
  intros s. apply (submit_without_selection roster s).
  right. reflexivity.
Defined.

Lemma submit_without_contact_witness :
  let s := handleFormChange PlannerEmail EmptyString readyState in
  let s' := handle roster s Submit in
  successMessage s'
  = Some "Please include your name and email so we can follow up."
  /\ (forall artistName slot,
        successMessage s' <> Some (confirmationMessage artistName slot))
  /\ ~ submitSucceeds roster s
  /\ formState s' = formState s
  /\ selectedAvailability s' = selectedAvailability s
  /\ s' = setSuccessMessage (successMessage s') s.
Proof.
  intros s. apply (submit_without_contact roster s lumen).
  - reflexivity.
  - discriminate.
  - right. reflexivity.
Defined.

(** *** Which fields are required *)

Section RequiredFields.

Variable initialArtists : list Artist.

Lemma submitSucceeds_checks (s : State) :
  submitSucceeds initialArtists s
  <-> (exists artist, selectedArtist initialArtists s = Some artist)
      /\ selectedAvailability s <> EmptyString
      /\ plannerName (formState s) <> EmptyString
      /\ plannerEmail (formState s) <> EmptyString.
Proof.
  split.
  - intros [artist [Hsel Hmsg]].
    split; [now exists artist |].
    unfold handle, dispatch, handleSubmit in Hmsg. rewrite Hsel in Hmsg.
    rewrite <- !isEmpty_false.
    destruct (isEmpty (selectedAvailability s)); [discriminate Hmsg |].
    destruct (isEmpty (plannerName (formState s))); [discriminate Hmsg |].
    destruct (isEmpty (plannerEmail (formState s))); [discriminate Hmsg |].
    now idtac.
  - intros [[artist Hsel] [Hslot [Hname Hmail]]].
    exists artist. split; [exact Hsel |].
    unfold handle, dispatch.
    now rewrite (handleSubmit_accept _ s artist Hsel Hslot Hname Hmail).
Qed.

(** C7, as the code has it.  The presence checks of a submission are on
    the selected artist, the chosen slot, the planner name and the
    planner email, and on nothing else: a submission succeeds exactly
    when these four are present, whatever the event details are, empty
    or not. *)
Theorem submit_presence_checks (s : State) :
  (submitSucceeds initialArtists s
   <-> (exists artist, selectedArtist initialArtists s = Some artist)
       /\ selectedAvailability s <> EmptyString
       /\ plannerName (formState s) <> EmptyString
       /\ plannerEmail (formState s) <> EmptyString)
  /\ (forall details,
        submitSucceeds initialArtists (handleFormChange EventDetails details s)
        <-> submitSucceeds initialArtists s).
Proof.
  split; [apply submitSucceeds_checks |].
  intros details. rewrite !submitSucceeds_checks. reflexivity.
Qed.

End RequiredFields.

(** C7, as stated, fails: with an artist, a slot, a name and an email, a
    submission whose event details are empty succeeds. *)
Lemma blank_details_accepted :
  ~ (forall (initialArtists : list Artist) (s : State),
        (exists artist, selectedArtist initialArtists s = Some artist) ->
        selectedAvailability s <> EmptyString ->
        plannerName (formState s) <> EmptyString ->
        plannerEmail (formState s) <> EmptyString ->
        eventDetails (formState s) = EmptyString ->
        ~ submitSucceeds initialArtists s).
Proof.
  intros Hclaim.
  apply (Hclaim roster (handleFormChange EventDetails EmptyString readyState)).
  - now exists lumen.
  - discriminate.
  - discriminate.
  - discriminate.
  - reflexivity.
  - exists lumen. split; reflexivity.
Qed.

(** ** Availability slots *)

Section AvailabilitySlots.

Variable initialArtists : list Artist.

Lemma handleAvailabilityClick_chosen (slot : string) (s : State) :
  selectedAvailability s = slot ->
  selectedAvailability (handleAvailabilityClick slot s) = EmptyString.
Proof. intros Hcur. simpl. rewrite Hcur. now rewrite String.eqb_refl. Qed.

Lemma handleAvailabilityClick_other (slot : string) (s : State) :
  selectedAvailability s <> slot ->
  selectedAvailability (handleAvailabilityClick slot s) = slot.
Proof.
  intros Hcur. simpl. apply String.eqb_neq in Hcur. now rewrite Hcur.
Qed.

(** From no selection, a click chooses the slot clicked (for the empty
    label, the two branches of the toggle agree). *)
Lemma handleAvailabilityClick_none (slot : string) (s : State) :
  selectedAvailability s = EmptyString ->
  selectedAvailability (handleAvailabilityClick slot s) = slot.
Proof.
  intros Hcur. simpl. rewrite Hcur. now destruct slot.
Qed.

(** C8, as the code has it.  One click on the chosen slot clears it.  A
    click on a slot that is not the chosen one chooses it, and a second
    click on it in succession returns to no selection.  Two clicks in
    succession on a non-empty slot that is the chosen one leave it
    chosen. *)
Theorem handleAvailabilityClick_toggle (slot : string) (s : State) :
  let once := handleAvailabilityClick slot s in
  let twice := handleAvailabilityClick slot once in
  (selectedAvailability s = slot -> selectedAvailability once = EmptyString)
  /\ (selectedAvailability s <> slot ->
      selectedAvailability once = slot
      /\ selectedAvailability twice = EmptyString)
  /\ (selectedAvailability s = slot -> slot <> EmptyString ->
      selectedAvailability twice = slot).
Proof.
  intros once twice. split; [| split].
  - apply handleAvailabilityClick_chosen.
  - intros Hcur.
    assert (Honce : selectedAvailability once = slot)
      by now apply handleAvailabilityClick_other.
    split; [exact Honce | now apply handleAvailabilityClick_chosen].
  - intros Hcur Hslot. apply handleAvailabilityClick_other.
    unfold once. rewrite (handleAvailabilityClick_chosen slot s Hcur).
    congruence.
Qed.

Lemma handleBookClick_visible (s : State) (artist : Artist) :
  In artist (filteredArtists initialArtists s) ->
  forall slot,
    selectionVisible initialArtists
      ((handleBookClick (id artist) ;; handleAvailabilityClick slot) s).
Proof.
  intros Hin slot. exists artist. split; [| reflexivity].
  erewrite filteredArtists_criteria; [exact Hin | reflexivity ..].
Qed.

(** C9.  A click on a slot pill of an artist card makes that slot the
    chosen slot and that artist the selected one, whatever slot was
    chosen before, the same slot included: the slot is cleared by the
    book-click handler before the toggle reads it.  The reconciliation
    effect that follows keeps both.  Of the two kinds of slot pills, only
    the one in the booking panel toggles a slot off: a click on a pill
    with a non-empty label leaves no slot chosen exactly when the pill is
    in the panel and its slot was the chosen one. *)
Theorem card_slot_click_selects (s : State) (artist : Artist) (slot : string) :
  let s' := handle initialArtists s (ClickCardSlot artist slot) in
  selectedAvailability s' = slot
  /\ selectedArtistId s' = id artist
  /\ (enabled initialArtists s (ClickCardSlot artist slot) ->
      step initialArtists s (ClickCardSlot artist slot) = s')
  /\ (forall e,
        e = ClickCardSlot artist slot \/ e = ClickPanelSlot slot ->
        slot <> EmptyString ->
        (selectedAvailability (handle initialArtists s e) = EmptyString
         <-> e = ClickPanelSlot slot /\ selectedAvailability s = slot)).
Proof.
  intros s'.
  assert (Hslot : selectedAvailability s' = slot).
  { unfold s', handle, dispatch, seqUpdate.
    now apply handleAvailabilityClick_none. }
  split; [exact Hslot | split; [reflexivity | split]].
  - intros [Hin _]. unfold step. apply reconcile_visible.
    now apply handleBookClick_visible.
  - intros e [He | He] Hlabel; subst e.
    + fold s'. rewrite Hslot. split; [contradiction |].
      intros [Hpanel _]. discriminate Hpanel.
    + unfold handle, dispatch. split.
      * intros Hoff. split; [reflexivity |].
        destruct (string_dec (selectedAvailability s) slot) as [Heq | Hneq];
          [exact Heq |].
        rewrite (handleAvailabilityClick_other slot s Hneq) in Hoff.
        contradiction.
      * intros [_ Hcur]. now apply handleAvailabilityClick_chosen.
Qed.

End AvailabilitySlots.

(** C8, as stated, fails: two clicks in succession on the chosen slot leave
    it chosen. *)
Lemma toggle_twice_on_chosen_slot :
  selectedAvailability readyState = "Fri 12 Sep"
  /\ selectedAvailability
       (handleAvailabilityClick "Fri 12 Sep"
          (handleAvailabilityClick "Fri 12 Sep" readyState))
     = "Fri 12 Sep"
  /\ ~ (forall (slot : string) (s : State),
          selectedAvailability
            (handleAvailabilityClick slot (handleAvailabilityClick slot s))
          = EmptyString).
Proof.
  split; [reflexivity | split; [reflexivity |]].
  intros Hclaim. specialize (Hclaim "Fri 12 Sep" readyState).
  discriminate Hclaim.
Qed.

Lemma handleAvailabilityClick_toggle_witness :
  (* the chosen slot, clicked once and clicked twice *)
  (selectedAvailability (handleAvailabilityClick "Fri 12 Sep" readyState)
   = EmptyString
   /\ selectedAvailability
        (handleAvailabilityClick "Fri 12 Sep"
           (handleAvailabilityClick "Fri 12 Sep" readyState))
      = "Fri 12 Sep")
  (* another slot, clicked once and clicked twice *)
  /\ (selectedAvailability (handleAvailabilityClick "Sat 20 Sep" readyState)
      = "Sat 20 Sep"
      /\ selectedAvailability
           (handleAvailabilityClick "Sat 20 Sep"
              (handleAvailabilityClick "Sat 20 Sep" readyState))
         = EmptyString).
Proof.
  pose proof (handleAvailabilityClick_toggle "Fri 12 Sep" readyState)
    as [Hoff [_ Hback]].
  pose proof (handleAvailabilityClick_toggle "Sat 20 Sep" readyState)
    as [_ [Hother _]].
  split.
  - split; [apply Hoff; reflexivity | apply Hback; [reflexivity | discriminate]].
  - apply Hother. discriminate.
Defined.

Lemma card_slot_click_selects_witness :
  let e := ClickCardSlot lumen "Fri 12 Sep" in
  selectedAvailability readyState = "Fri 12 Sep"
  /\ selectedAvailability (step roster readyState e) = "Fri 12 Sep"
  /\ selectedArtistId (step roster readyState e) = "lumen"
  /\ selectedAvailability (handle roster readyState (ClickPanelSlot "Fri 12 Sep"))
     = EmptyString.
Proof.
  intros e. subst e.
  destruct (card_slot_click_selects roster readyState lumen "Fri 12 Sep")
    as [Hslot [Hid [Hstep Honly]]].
  assert (Hen : enabled roster readyState (ClickCardSlot lumen "Fri 12 Sep")).
  { split; left; reflexivity. }
  split; [reflexivity |].
  rewrite (Hstep Hen).
  split; [exact Hslot | split; [exact Hid |]].
  apply (Honly (ClickPanelSlot "Fri 12 Sep")).
  - right. reflexivity.
  - discriminate.
  - split; reflexivity.
Defined.

(** * Further properties of the component *)

(** ** How the criteria act on the filtered list *)

Section FilterLaws.

Variable initialArtists : list Artist.

Lemma filter_and {A : Type} (f g : A -> bool) (l : list A) :
  filter f (filter g l) = filter (fun x => f x && g x) l.
Proof.
  induction l as [| x l IH]; simpl; [reflexivity |].
  destruct (g x); simpl.
  - rewrite andb_true_r. destruct (f x); now rewrite IH.
  - now rewrite andb_false_r.
Qed.

Lemma filter_incl_self {A : Type} (f : A -> bool) (l : list A) :
  incl (filter f l) l.
Proof. intros x Hin. now apply filter_In in Hin. Qed.

(** X1.  Lowering the budget only removes artists: for [b <= b'] the list
    filtered under budget [b] is the list filtered under [b'] without the
    artists whose rate exceeds [b], in the same order; raising the budget
    never hides an artist that was shown. *)
Theorem filteredArtists_budget_monotone (s : State) (b b' : number) :
  (b <= b')%number ->
  filteredArtists initialArtists (setBudget b s)
  = filter (fun artist => Number_leb (rate artist) b)
           (filteredArtists initialArtists (setBudget b' s))
  /\ incl (filteredArtists initialArtists (setBudget b s))
          (filteredArtists initialArtists (setBudget b' s)).
Proof.
  intros Hle.
  assert (Heq : filteredArtists initialArtists (setBudget b s)
                = filter (fun artist => Number_leb (rate artist) b)
                         (filteredArtists initialArtists (setBudget b' s))).
  { unfold filteredArtists. rewrite filter_and. apply filter_ext.
    intros artist. unfold matchesFilters. simpl.
    destruct (Number_leb (rate artist) b) eqn:Hb;
      [| now rewrite andb_false_r].
    now rewrite (Number_leb_trans _ _ _ Hb Hle). }
  split; [exact Heq |].
  rewrite Heq. apply filter_incl_self.
Qed.

(** X2.  "All" is the widest choice of either pill row: the list filtered
    under a genre is the list filtered under "All" (same location and
    budget) restricted to the artists carrying that genre, and likewise
    for a location. *)
Theorem filteredArtists_All_widest (s : State) (genre loc : string) :
  filteredArtists initialArtists (setGenreFilter genre s)
  = filter (fun artist =>
              (genre =? "All")%string
              || existsb (fun g => (g =? genre)%string) (genres artist))
           (filteredArtists initialArtists (setGenreFilter "All" s))
  /\ filteredArtists initialArtists (setLocationFilter loc s)
     = filter (fun artist =>
                 (loc =? "All")%string || (location artist =? loc)%string)
              (filteredArtists initialArtists (setLocationFilter "All" s)).
Proof.
  split; unfold filteredArtists; rewrite filter_and; apply filter_ext;
    intros artist; unfold matchesFilters; simpl.
  - now destruct ((genre =? "All")%string || existsb _ (genres artist)).
  - destruct ((loc =? "All")%string || (location artist =? loc)%string);
      [now rewrite andb_true_r | now rewrite andb_false_r].
Qed.

(** X3.  Filtering keeps the roster's shape: the filtered list is never
    longer than the roster, and when the ids of the roster are pairwise
    distinct so are the ids of the filtered list (the keys of the
    artist cards). *)
Theorem filteredArtists_keys (s : State) :
  (List.length (filteredArtists initialArtists s)
   <= List.length initialArtists)%nat
  /\ (NoDup (map id initialArtists) ->
      NoDup (map id (filteredArtists initialArtists s))).
Proof.
  unfold filteredArtists. split.
  - apply filter_length_le.
  - induction initialArtists as [| a l IH]; simpl; intros Hnd; [constructor |].
    inversion Hnd as [| x xs Hnotin Hrest]; subst.
    destruct (matchesFilters s a); [| now apply IH].
    simpl. constructor; [| now apply IH].
    intros Hin. apply Hnotin. apply in_map_iff in Hin.
    destruct Hin as [a' [Hid Hin']]. apply filter_In in Hin'.
    apply in_map_iff. exists a'. tauto.
Qed.

End FilterLaws.

Lemma filteredArtists_budget_monotone_witness :
  filteredArtists roster (setBudget 3000 readyState) = [orbit]
  /\ filteredArtists roster (setBudget 5000 readyState) = [lumen; orbit]
  /\ incl (filteredArtists roster (setBudget 3000 readyState))
          (filteredArtists roster (setBudget 5000 readyState)).
Proof.
  split; [reflexivity | split; [reflexivity |]].
  apply (filteredArtists_budget_monotone roster readyState 3000 5000).
  reflexivity.
Defined.

Lemma filteredArtists_keys_witness :
  NoDup (map id (filteredArtists roster readyState)).
Proof.
  apply (proj2 (filteredArtists_keys roster readyState)).
  repeat constructor; simpl; intuition discriminate.
Defined.

(** ** The budget slider *)

Lemma finite_rates_ordered (l : list Artist) :
  Forall (fun artist => Number_isFinite (rate artist) = true) l ->
  Forall (fun artist => rate artist <> NaN /\ rate artist <> NegInfinity) l.
Proof.
  intros Hl. eapply Forall_impl; [| exact Hl].
  intros artist Hfin. simpl in Hfin.
  destruct (rate artist); simpl in Hfin; split; congruence.
Qed.

Lemma finite_rates_not_NaN (l : list Artist) :
  Forall (fun artist => Number_isFinite (rate artist) = true) l ->
  Forall (fun artist => rate artist <> NaN) l.
Proof.
  intros Hl. eapply Forall_impl; [| exact (finite_rates_ordered l Hl)].
  intros artist [Hnan _]. exact Hnan.
Qed.

(** With finite rates the fallback of [resolvedMinRate] is not taken. *)
Lemma resolvedMinRate_minRate (l : list Artist) :
  Forall (fun artist => Number_isFinite (rate artist) = true) l ->
  resolvedMinRate l = minRate l.
Proof.
  intros Hl.
  assert (Hfin : Number_isFinite (minRate l) = true).
  { rewrite Forall_forall in Hl.
    destruct (fold_min_attained l (firstRate l)) as [Hm | [a [Hin Ha]]].
    - unfold minRate. rewrite Hm.
      destruct (firstRate_cases l) as [[_ Hf] | [first [rest [Hshape Hf]]]];
        rewrite Hf; [reflexivity |].
      apply (Hl first). rewrite Hshape. now left.
    - unfold minRate. rewrite <- Ha. now apply (Hl a). }
  unfold resolvedMinRate. now rewrite Hfin.
Qed.

Lemma filter_nothing {A : Type} (f : A -> bool) (l : list A) :
  (forall x, In x l -> f x = false) -> filter f l = [].
Proof.
  induction l as [| x l IH]; simpl; intros Hf; [reflexivity |].
  rewrite (Hf x (or_introl eq_refl)). apply IH. intros y Hy. apply Hf. now right.
Qed.

(** X4.  When every rate is a finite number, the bounds of the budget
    range input enclose the roster: every rate lies between
    [resolvedMinRate] and [resolvedMaxRate], the initial budget lies in
    that range, both bounds are the rate of some artist when the roster is
    not empty, and both are 0 when it is. *)
Theorem budget_range_encloses_rates (initialArtists : list Artist) :
  Forall (fun artist => Number_isFinite (rate artist) = true) initialArtists ->
  Forall (fun artist =>
            (resolvedMinRate initialArtists <= rate artist
             <= resolvedMaxRate initialArtists)%number) initialArtists
  /\ (resolvedMinRate initialArtists <= budget (initialState initialArtists)
      <= resolvedMaxRate initialArtists)%number
  /\ match initialArtists with
     | [] =>
         resolvedMinRate initialArtists = 0
         /\ resolvedMaxRate initialArtists = 0
     | _ :: _ =>
         (exists artist,
            In artist initialArtists
            /\ rate artist = resolvedMinRate initialArtists)
         /\ (exists artist,
               In artist initialArtists
               /\ rate artist = resolvedMaxRate initialArtists)
     end.
Proof.
  intros Hfin.
  pose proof (finite_rates_not_NaN _ Hfin) as Hnan.
  pose proof (resolvedMinRate_minRate _ Hfin) as Hmin.
  pose proof (resolvedMaxRate_maxRate _ (finite_rates_ordered _ Hfin)) as Hmax.
  assert (Hnot : maxRate initialArtists <> NaN).
  { apply fold_max_NaN. split; [now apply firstRate_not_NaN | exact Hnan]. }
  split; [| split].
  - rewrite Hmin, Hmax. apply Forall_forall. intros artist Hin. split.
    + exact (proj1 (Forall_forall _ _) (minRate_lower _ Hnan) artist Hin).
    + exact (proj1 (Forall_forall _ _) (maxRate_upper _ Hnan) artist Hin).
  - change (budget (initialState initialArtists))
      with (resolvedMaxRate initialArtists).
    rewrite Hmin, Hmax. split.
    + now apply minRate_le_maxRate.
    + now apply Number_le_refl.
  - rewrite Hmin, Hmax. clear Hfin Hnan Hmin Hmax Hnot.
    destruct initialArtists as [| first rest].
    + split; reflexivity.
    + split.
      * apply (minRate_attained _ first rest). reflexivity.
      * apply (maxRate_attained _ first rest). reflexivity.
Qed.

(** X5.  When every rate is a finite number, a budget strictly below the
    lower bound of the slider hides everyone, whatever the genre and the
    location chosen. *)
Theorem budget_below_range_hides_all (initialArtists : list Artist) (s : State) :
  Forall (fun artist => Number_isFinite (rate artist) = true) initialArtists ->
  (budget s < resolvedMinRate initialArtists)%number ->
  filteredArtists initialArtists s = [].
Proof.
  intros Hfin Hlow. unfold filteredArtists. apply filter_nothing.
  intros artist Hin. unfold matchesFilters.
  pose proof (proj1 (Forall_forall _ _)
                    (minRate_lower _ (finite_rates_not_NaN _ Hfin)) artist Hin)
    as Hmin.
  simpl in Hmin. rewrite <- (resolvedMinRate_minRate _ Hfin) in Hmin.
  destruct (Number_leb (rate artist) (budget s)) eqn:Hrate;
    [| apply andb_false_r].
  pose proof (Number_leb_trans _ _ _ Hmin Hrate) as Hle.
  rewrite (Number_lt_not_le _ _ Hlow) in Hle. discriminate Hle.
Qed.

(** X6.  When every rate is a finite number and the roster is not empty,
    with both pill rows on "All" and the budget at the lower bound of the
    slider the filtered list is made of exactly the artists with the
    lowest rate, and there is one. *)
Theorem budget_at_minimum_keeps_cheapest (initialArtists : list Artist)
        (s : State) :
  Forall (fun artist => Number_isFinite (rate artist) = true) initialArtists ->
  initialArtists <> [] ->
  genreFilter s = "All" ->
  locationFilter s = "All" ->
  budget s = resolvedMinRate initialArtists ->
  filteredArtists initialArtists s <> []
  /\ (forall artist,
        In artist (filteredArtists initialArtists s)
        <-> In artist initialArtists
            /\ rate artist = resolvedMinRate initialArtists).
Proof.
  intros Hfin Hsome Hg Hl Hb.
  pose proof (finite_rates_not_NaN _ Hfin) as Hnan.
  pose proof (resolvedMinRate_minRate _ Hfin) as Hmin.
  assert (Hmem : forall artist,
             In artist (filteredArtists initialArtists s)
             <-> In artist initialArtists
                 /\ rate artist = resolvedMinRate initialArtists).
  { intros artist. rewrite filteredArtists_In.
    unfold satisfiesCriteria. rewrite Hg, Hl, Hb. split.
    - intros [Hin [_ [_ Hrate]]]. split; [exact Hin |].
      apply Number_le_antisym; [exact Hrate |].
      rewrite Hmin.
      exact (proj1 (Forall_forall _ _) (minRate_lower _ Hnan) artist Hin).
    - intros [Hin Hrate]. split; [exact Hin |].
      split; [now left | split; [now left |]].
      rewrite <- Hrate. apply Number_le_refl.
      exact (proj1 (Forall_forall _ _) Hnan artist Hin). }
  split; [| exact Hmem].
  destruct initialArtists as [| first rest] eqn:Hroster; [contradiction |].
  destruct (minRate_attained (first :: rest) first rest eq_refl)
    as [artist Hcheap].
  rewrite <- Hmin in Hcheap. apply Hmem in Hcheap.
  intros Hnone. rewrite Hnone in Hcheap. destruct Hcheap.
Qed.

(** X7.  A budget at or above the upper bound of the slider shows what
    the upper bound itself shows: the budget criterion then excludes
    nobody. *)
Theorem budget_above_range_excludes_nobody (initialArtists : list Artist)
        (s : State) :
  (resolvedMaxRate initialArtists <= budget s)%number ->
  filteredArtists initialArtists s
  = filteredArtists initialArtists (setBudget (resolvedMaxRate initialArtists) s)
  /\ (forall artist,
        In artist (filteredArtists initialArtists s)
        <-> In artist initialArtists
            /\ (genreFilter s = "All" \/ In (genreFilter s) (genres artist))
            /\ (locationFilter s = "All" \/ location artist = locationFilter s)).
Proof.
  intros Hhigh.
  assert (Hnan : Forall (fun artist => rate artist <> NaN) initialArtists).
  { apply resolvedMaxRate_no_NaN. now apply Number_le_not_NaN in Hhigh. }
  assert (Hall : forall artist, In artist initialArtists ->
                                (rate artist <= resolvedMaxRate initialArtists)%number).
  { intros artist Hin.
    exact (proj1 (Forall_forall _ _) (rate_le_resolvedMaxRate _ Hnan) artist Hin). }
  split.
  - unfold filteredArtists. apply filter_ext_in. intros artist Hin.
    unfold matchesFilters. simpl. specialize (Hall artist Hin).
    rewrite (Number_leb_trans _ _ _ Hall Hhigh). now rewrite Hall.
  - intros artist. rewrite filteredArtists_In. unfold satisfiesCriteria.
    split; [tauto |]. intros [Hin [Hgenre Hloc]].
    specialize (Hall artist Hin). repeat split; auto.
    exact (Number_leb_trans _ _ _ Hall Hhigh).
Qed.

Lemma budget_range_encloses_rates_witness :
  resolvedMinRate tour = 2800
  /\ resolvedMaxRate tour = 6500
  /\ Forall (fun artist =>
               (resolvedMinRate tour <= rate artist <= resolvedMaxRate tour)%number)
            tour.
Proof.
  assert (Hfin : Forall (fun artist => Number_isFinite (rate artist) = true) tour)
    by (repeat constructor).
  destruct (budget_range_encloses_rates tour Hfin) as [Hall _].
  split; [reflexivity | split; [reflexivity | exact Hall]].
Defined.

Lemma budget_below_range_hides_all_witness :
  filteredArtists roster (setBudget 2700 readyState) = [].
Proof.
  apply (budget_below_range_hides_all roster (setBudget 2700 readyState)).
  - repeat constructor.
  - reflexivity.
Defined.

Lemma budget_at_minimum_keeps_cheapest_witness :
  let s := setBudget 2800 (initialState tour) in
  filteredArtists tour s <> []
  /\ (forall artist,
        In artist (filteredArtists tour s)
        <-> In artist tour /\ rate artist = resolvedMinRate tour).
Proof.
  intros s. apply (budget_at_minimum_keeps_cheapest tour s).
  - repeat constructor.
  - discriminate.
  - reflexivity.
  - reflexivity.
  - reflexivity.
Defined.

Lemma budget_above_range_excludes_nobody_witness :
  let s := setGenreFilter "Soul" (setBudget 9000 readyState) in
  filteredArtists roster s = filteredArtists roster (setBudget (resolvedMaxRate roster) s)
  /\ (forall artist,
        In artist (filteredArtists roster s)
        <-> In artist roster
            /\ (genreFilter s = "All" \/ In (genreFilter s) (genres artist))
            /\ (locationFilter s = "All" \/ location artist = locationFilter s)).
Proof.
  intros s. apply (budget_above_range_excludes_nobody roster s).
  reflexivity.
Defined.

(** ** The pill rows *)

Section PillRows.

Variable initialArtists : list Artist.

Lemma setAdd_In (set : list string) (x y : string) :
  In y (setAdd set x) <-> In y set \/ y = x.
Proof.
  unfold setAdd.
  destruct (existsb (fun z => (z =? x)%string) set) eqn:Hmem.
  - split; [now left |]. intros [Hin | Heq]; [exact Hin |]. subst y.
    apply existsb_exists in Hmem. destruct Hmem as [z [Hz Hzx]].
    apply String.eqb_eq in Hzx. now subst z.
  - rewrite in_app_iff. simpl. intuition.
Qed.

Lemma setAdd_NoDup (set : list string) (x : string) :
  NoDup set -> NoDup (setAdd set x).
Proof.
  intros Hnd. unfold setAdd.
  destruct (existsb (fun z => (z =? x)%string) set) eqn:Hmem; [exact Hnd |].
  apply NoDup_app; [exact Hnd | repeat constructor; intros [] |].
  intros z Hz [Hzx | []]. subst z.
  assert (Hex : existsb (fun z => (z =? x)%string) set = true).
  { apply existsb_exists. exists x. split; [exact Hz | apply String.eqb_refl]. }
  congruence.
Qed.

Lemma fold_setAdd_In (xs set : list string) (y : string) :
  In y (fold_left setAdd xs set) <-> In y set \/ In y xs.
Proof.
  revert set. induction xs as [| x xs IH]; intros set; simpl.
  - tauto.
  - rewrite IH, setAdd_In. intuition.
Qed.

Lemma fold_setAdd_NoDup (xs set : list string) :
  NoDup set -> NoDup (fold_left setAdd xs set).
Proof.
  revert set. induction xs as [| x xs IH]; intros set Hnd; simpl;
    [exact Hnd | now apply IH, setAdd_NoDup].
Qed.

Lemma genreSet_from (l : list Artist) (set : list string) :
  let result :=
    fold_left (fun acc artist => fold_left setAdd (genres artist) acc) l set in
  (NoDup set -> NoDup result)
  /\ (forall g, In g result
                <-> In g set \/ exists artist, In artist l /\ In g (genres artist)).
Proof.
  revert set. induction l as [| a l IH]; intros set; simpl.
  - split; [auto |]. intros g. split; [now left |].
    intros [Hin | [artist [[] _]]]. exact Hin.
  - destruct (IH (fold_left setAdd (genres a) set)) as [IHnd IHin].
    split.
    + intros Hnd. now apply IHnd, fold_setAdd_NoDup.
    + intros g. rewrite IHin, fold_setAdd_In. split.
      * intros [[Hset | Ha] | [artist [Hin Hg]]]; [now left | right .. ].
        -- exists a. split; [now left | exact Ha].
        -- exists artist. split; [now right | exact Hg].
      * intros [Hset | [artist [[Heq | Hin] Hg]]].
        -- left. now left.
        -- subst artist. left. now right.
        -- right. now exists artist.
Qed.

Lemma insertSorted_Permutation (x : string) (l : list string) :
  Permutation (x :: l) (insertSorted x l).
Proof.
  induction l as [| y l IH]; simpl; [apply Permutation_refl |].
  destruct (String.leb x y); [apply Permutation_refl |].
  eapply perm_trans; [apply perm_swap |]. now apply perm_skip.
Qed.

Lemma insertSorted_Sorted (x : string) (l : list string) :
  Sorted (fun a b => String.leb a b = true) l ->
  Sorted (fun a b => String.leb a b = true) (insertSorted x l).
Proof.
  induction 1 as [| y l Hsorted IH Hhd]; simpl.
  - repeat constructor.
  - destruct (String.leb x y) eqn:Hxy.
    + constructor; [now constructor | now constructor].
    + assert (Hyx : String.leb y x = true).
      { destruct (String.leb_total x y) as [Hle | Hle]; congruence. }
      constructor; [exact IH |].
      destruct Hhd as [| z l Hyz]; simpl.
      * now constructor.
      * destruct (String.leb x z); now constructor.
Qed.

Lemma sortStrings_from (l sorted : list string) :
  let result := fold_left (fun acc x => insertSorted x acc) l sorted in
  Permutation (l ++ sorted) result
  /\ (Sorted (fun a b => String.leb a b = true) sorted ->
      Sorted (fun a b => String.leb a b = true) result).
Proof.
  revert sorted. induction l as [| x l IH]; intros sorted; simpl.
  - split; [apply Permutation_refl | auto].
  - destruct (IH (insertSorted x sorted)) as [IHperm IHsorted]. split.
    + eapply perm_trans; [| exact IHperm].
      eapply perm_trans; [apply Permutation_middle |].
      apply Permutation_app_head, insertSorted_Permutation.
    + intros Hsorted. now apply IHsorted, insertSorted_Sorted.
Qed.

Lemma sortStrings_spec (l : list string) :
  Permutation l (sortStrings l)
  /\ Sorted (fun a b => String.leb a b = true) (sortStrings l).
Proof.
  destruct (sortStrings_from l []) as [Hperm Hsorted].
  rewrite app_nil_r in Hperm. split; [exact Hperm |].
  apply Hsorted. constructor.
Qed.

Lemma uniqueGenres_sorted_members (genre : string) :
  In genre (uniqueGenres_sorted initialArtists)
  <-> exists artist, In artist initialArtists /\ In genre (genres artist).
Proof.
  destruct (sortStrings_spec (genreSet initialArtists)) as [Hperm _].
  destruct (genreSet_from initialArtists []) as [_ Hin].
  split.
  - intros Hg. apply (Permutation_in _ (Permutation_sym Hperm)) in Hg.
    apply Hin in Hg. destruct Hg as [[] | Hex]. exact Hex.
  - intros Hex. apply (Permutation_in _ Hperm). apply Hin. now right.
Qed.

Lemma uniqueLocations_sorted_members (loc : string) :
  In loc (uniqueLocations_sorted initialArtists)
  <-> exists artist, In artist initialArtists /\ location artist = loc.
Proof.
  destruct (sortStrings_spec (locationSet initialArtists)) as [Hperm _].
  split.
  - intros Hl. apply (Permutation_in _ (Permutation_sym Hperm)) in Hl.
    apply fold_setAdd_In in Hl. destruct Hl as [[] | Hl].
    apply in_map_iff in Hl. destruct Hl as [artist [Hloc Hin]]. now exists artist.
  - intros [artist [Hin Hloc]]. apply (Permutation_in _ Hperm).
    apply fold_setAdd_In. right. apply in_map_iff. now exists artist.
Qed.

(** X8.  The genre pills list, in ascending order and each once, exactly
    the genres carried by some artist of the roster. *)
Theorem uniqueGenres_sorted_spec :
  Sorted (fun a b => String.leb a b = true) (uniqueGenres_sorted initialArtists)
  /\ NoDup (uniqueGenres_sorted initialArtists)
  /\ (forall genre,
        In genre (uniqueGenres_sorted initialArtists)
        <-> exists artist, In artist initialArtists /\ In genre (genres artist))
  /\ (forall genre,
        In genre (uniqueGenres_sorted initialArtists)
        <-> In genre (uniqueGenres initialArtists)).
Proof.
  destruct (sortStrings_spec (genreSet initialArtists)) as [Hperm Hsorted].
  destruct (genreSet_from initialArtists []) as [Hnd _].
  split; [exact Hsorted | split; [| split]].
  - apply (Permutation_NoDup Hperm). apply Hnd. constructor.
  - apply uniqueGenres_sorted_members.
  - intros genre. rewrite uniqueGenres_sorted_members. unfold uniqueGenres.
    rewrite nodup_In, in_flat_map. reflexivity.
Qed.

(** X9.  The home-base pills list, in ascending order and each once,
    exactly the locations of the artists of the roster. *)
Theorem uniqueLocations_sorted_spec :
  Sorted (fun a b => String.leb a b = true) (uniqueLocations_sorted initialArtists)
  /\ NoDup (uniqueLocations_sorted initialArtists)
  /\ (forall loc,
        In loc (uniqueLocations_sorted initialArtists)
        <-> exists artist, In artist initialArtists /\ location artist = loc)
  /\ (forall loc,
        In loc (uniqueLocations_sorted initialArtists)
        <-> In loc (uniqueLocations initialArtists)).
Proof.
  destruct (sortStrings_spec (locationSet initialArtists)) as [Hperm Hsorted].
  split; [exact Hsorted | split; [| split]].
  - apply (Permutation_NoDup Hperm). apply fold_setAdd_NoDup. constructor.
  - apply uniqueLocations_sorted_members.
  - intros loc. rewrite uniqueLocations_sorted_members. unfold uniqueLocations.
    rewrite nodup_In, in_map_iff. split.
    + intros [artist [Hin Hloc]]. now exists artist.
    + intros [artist [Hloc Hin]]. now exists artist.
Qed.

(** X10.  When no rate is NaN, from the state of the first render a click
    on the pill of a genre of the roster, or of a location of the roster,
    leaves at least one artist on display, and a click on either "All"
    pill leaves the whole roster on display. *)
Theorem first_pill_click_shows_someone (genre loc : string) :
  Forall (fun artist => rate artist <> NaN) initialArtists ->
  (In genre (uniqueGenres_sorted initialArtists) ->
   filteredArtists initialArtists
     (handle initialArtists (initialState initialArtists) (ClickGenre genre)) <> [])
  /\ (In loc (uniqueLocations_sorted initialArtists) ->
      filteredArtists initialArtists
        (handle initialArtists (initialState initialArtists) (ClickLocation loc))
      <> [])
  /\ filteredArtists initialArtists
       (handle initialArtists (initialState initialArtists) (ClickGenre "All"))
     = initialArtists
  /\ filteredArtists initialArtists
       (handle initialArtists (initialState initialArtists) (ClickLocation "All"))
     = initialArtists.
Proof.
  intros Hnan.
  assert (Hrate : forall artist,
             In artist initialArtists ->
             (rate artist <= resolvedMaxRate initialArtists)%number).
  { intros artist Hin.
    exact (proj1 (Forall_forall _ _) (rate_le_resolvedMaxRate _ Hnan) artist Hin). }
  split; [| split; [| split]].
  - intros Hpill. apply uniqueGenres_sorted_members in Hpill.
    destruct Hpill as [artist [Hin Hgenre]].
    assert (Hshown : In artist
                       (filteredArtists initialArtists
                          (handle initialArtists (initialState initialArtists)
                                  (ClickGenre genre)))).
    { apply filteredArtists_In. split; [exact Hin |].
      split; [now right | split; [now left | now apply Hrate]]. }
    intros Hnone. rewrite Hnone in Hshown. destruct Hshown.
  - intros Hpill. apply uniqueLocations_sorted_members in Hpill.
    destruct Hpill as [artist [Hin Hloc]].
    assert (Hshown : In artist
                       (filteredArtists initialArtists
                          (handle initialArtists (initialState initialArtists)
                                  (ClickLocation loc)))).
    { apply filteredArtists_In. split; [exact Hin |].
      split; [now left | split; [now right | now apply Hrate]]. }
    intros Hnone. rewrite Hnone in Hshown. destruct Hshown.
  - exact (initial_filteredArtists _ Hnan).
  - exact (initial_filteredArtists _ Hnan).
Qed.

End PillRows.

Lemma first_pill_click_shows_someone_witness :
  uniqueGenres_sorted roster = ["House"; "Jazz"; "Pop"; "Soul"]
  /\ uniqueLocations_sorted roster = ["Austin"; "Chicago"]
  /\ filteredArtists roster (handle roster (initialState roster) (ClickGenre "Soul"))
     <> []
  /\ filteredArtists roster (handle roster (initialState roster) (ClickLocation "Austin"))
     <> []
  /\ filteredArtists roster (handle roster (initialState roster) (ClickGenre "All"))
     = roster.
Proof.
  assert (Hnan : Forall (fun artist => rate artist <> NaN) roster)
    by (repeat constructor; discriminate).
  destruct (first_pill_click_shows_someone roster "Soul" "Austin" Hnan)
    as [Hgenre [Hloc [Hall _]]].
  split; [reflexivity | split; [reflexivity | split; [| split]]].
  - apply Hgenre. vm_compute. tauto.
  - apply Hloc. vm_compute. tauto.
  - exact Hall.
Defined.

(** ** The booking panel and the selection *)

Section BookingPanel.

Variable initialArtists : list Artist.

Lemma selectedArtist_shown (s : State) :
  selectionVisible initialArtists s
  <-> exists artist, selectedArtist initialArtists s = Some artist.
Proof.
  split.
  - intros Hvis. apply stillVisible_true in Hvis.
    unfold selectedArtist.
    destruct (find _ (filteredArtists initialArtists s)) as [artist |] eqn:Hfind;
      [now exists artist |].
    apply existsb_exists in Hvis. destruct Hvis as [artist [Hin Hid]].
    pose proof (find_none _ _ Hfind artist Hin) as Hno. simpl in Hno. congruence.
  - intros [artist Hsel]. exact (selectedArtist_visible _ s artist Hsel).
Qed.

Lemma selectedArtist_head (s : State) (first : Artist) (rest : list Artist) :
  filteredArtists initialArtists s = first :: rest ->
  id first = selectedArtistId s ->
  selectedArtist initialArtists s = Some first.
Proof.
  intros Hshown Hid. unfold selectedArtist. rewrite Hshown. simpl.
  rewrite Hid. now rewrite String.eqb_refl.
Qed.

Lemma noResults_true (s : State) :
  noResults initialArtists s = true <-> filteredArtists initialArtists s = [].
Proof.
  unfold noResults.
  destruct (filteredArtists initialArtists s); simpl; split; congruence.
Qed.

Lemma unique_id (l : list Artist) (a b : Artist) :
  NoDup (map id l) -> In a l -> In b l -> id a = id b -> a = b.
Proof.
  induction l as [| x l IH]; simpl; intros Hnd Ha Hb Hid; [destruct Ha |].
  inversion Hnd as [| y ys Hnotin Hrest]; subst.
  destruct Ha as [Ha | Ha], Hb as [Hb | Hb]; subst.
  - reflexivity.
  - exfalso. apply Hnotin. rewrite Hid. now apply in_map.
  - exfalso. apply Hnotin. rewrite <- Hid. now apply in_map.
  - now apply IH.
Qed.

(** X11.  In every reachable state the two placeholders go together: the
    booking form is absent exactly when no artist matches the filters, and
    then the selected id and the chosen slot are empty and the panel is
    headed "Select an artist". *)
Theorem panel_empty_iff_no_results (s : State) :
  reachable initialArtists s ->
  (formShown initialArtists s = false <-> noResults initialArtists s = true)
  /\ (noResults initialArtists s = true ->
      selectedArtistId s = EmptyString
      /\ selectedAvailability s = EmptyString
      /\ panelHeading initialArtists s = "Select an artist").
Proof.
  intros Hreach. apply reachable_reconciled in Hreach.
  assert (Hnone : filteredArtists initialArtists s = [] ->
                  selectedArtist initialArtists s = None).
  { intros Hempty. unfold selectedArtist. now rewrite Hempty. }
  split.
  - rewrite noResults_true. unfold formShown. split.
    + intros Hform.
      destruct Hreach as [[Hempty _] | Hvis]; [exact Hempty |].
      apply selectedArtist_shown in Hvis. destruct Hvis as [artist Hsel].
      rewrite Hsel in Hform. discriminate Hform.
    + intros Hempty. now rewrite (Hnone Hempty).
  - rewrite noResults_true. intros Hempty.
    destruct Hreach as [[_ [Hid Hslot]] | [artist [Hin _]]].
    + unfold panelHeading. rewrite (Hnone Hempty). auto.
    + rewrite Hempty in Hin. destruct Hin.
Qed.

(** X12.  Whenever some artist is on display, the booking panel shows an
    artist once the effect has run; when the previous selection was no
    longer on display, it is the artist of the first card. *)
Theorem reconcile_selects_first (s : State) (first : Artist) (rest : list Artist) :
  filteredArtists initialArtists s = first :: rest ->
  (exists artist,
      selectedArtist initialArtists (reconcile initialArtists s) = Some artist)
  /\ (~ selectionVisible initialArtists s ->
      selectedArtist initialArtists (reconcile initialArtists s) = Some first)
  /\ (selectionVisible initialArtists s ->
      selectedArtist initialArtists (reconcile initialArtists s)
      = selectedArtist initialArtists s).
Proof.
  intros Hshown.
  assert (Hhidden : ~ selectionVisible initialArtists s ->
                    selectedArtist initialArtists (reconcile initialArtists s)
                    = Some first).
  { intros Hnot. apply (selectedArtist_head _ first rest).
    - now rewrite reconcile_filteredArtists.
    - now rewrite (reconcile_hidden _ s first rest Hshown Hnot). }
  assert (Hkept : selectionVisible initialArtists s ->
                  selectedArtist initialArtists (reconcile initialArtists s)
                  = selectedArtist initialArtists s).
  { intros Hvis. now rewrite reconcile_visible. }
  split; [| split; assumption].
  destruct (selectionVisible_dec initialArtists s) as [Hvis | Hnot].
  - rewrite (Hkept Hvis). now apply selectedArtist_shown.
  - exists first. now apply Hhidden.
Qed.

(** X13.  The effect settles in one run and writes to the selection only:
    a second run changes nothing, and the criteria, the event format, the
    form fields and the status message are never touched by it. *)
Theorem reconcile_settles (s : State) :
  reconcile initialArtists (reconcile initialArtists s)
  = reconcile initialArtists s
  /\ genreFilter (reconcile initialArtists s) = genreFilter s
  /\ locationFilter (reconcile initialArtists s) = locationFilter s
  /\ budget (reconcile initialArtists s) = budget s
  /\ eventType (reconcile initialArtists s) = eventType s
  /\ formState (reconcile initialArtists s) = formState s
  /\ successMessage (reconcile initialArtists s) = successMessage s.
Proof.
  split; [apply reconciled_fixed, reconcile_reconciled |].
  unfold reconcile, reconcileEffect.
  destruct (filteredArtists initialArtists s) as [| first rest].
  - repeat split.
  - destruct (negb _); repeat split.
Qed.

End BookingPanel.

Lemma panel_empty_iff_no_results_witness :
  let s := step roster (step roster (initialState roster) (ClickGenre "House"))
                (ClickLocation "Austin") in
  noResults roster s = true
  /\ formShown roster s = false
  /\ selectedArtistId s = EmptyString
  /\ selectedAvailability s = EmptyString
  /\ panelHeading roster s = "Select an artist".
Proof.
  intros s.
  assert (Hreach : reachable roster s).
  { apply reachable_step.
    - apply reachable_step; [apply reachable_initialState; repeat constructor; discriminate |].
      right. vm_compute. tauto.
    - right. vm_compute. tauto. }
  destruct (panel_empty_iff_no_results roster s Hreach) as [Hiff Hcleared].
  assert (Hnone : noResults roster s = true) by reflexivity.
  split; [exact Hnone | split; [now apply Hiff | now apply Hcleared]].
Defined.

Lemma reconcile_selects_first_witness :
  let s := setGenreFilter "House" readyState in
  selectedArtist roster s = None
  /\ selectedArtist roster (reconcile roster s) = Some orbit.
Proof.
  intros s. split; [reflexivity |].
  destruct (reconcile_selects_first roster s orbit [] eq_refl) as [_ [Hfirst _]].
  apply Hfirst. intros [artist [[Heq | []] Hid]]. subst artist. discriminate Hid.
Defined.

(** ** What every reachable state keeps *)

Section ReachableStates.

Variable initialArtists : list Artist.

Lemma handle_slotOffered (s : State) (e : Event) :
  slotOffered initialArtists s ->
  enabled initialArtists s e ->
  slotOffered initialArtists (handle initialArtists s e).
Proof.
  intros Hoffered Hen.
  destruct e as [genre | loc | value | value | artist | artist slot | slot
                 | field value |]; try exact Hoffered.
  - (* Request *) now left.
  - (* slot pill of a card *)
    destruct Hen as [Hshown Hslot].
    assert (Hchosen : selectedAvailability
                        (handle initialArtists s (ClickCardSlot artist slot)) = slot).
    { unfold handle, dispatch, seqUpdate. now apply handleAvailabilityClick_none. }
    right. exists artist. rewrite Hchosen.
    apply filteredArtists_In in Hshown. now repeat split.
  - (* slot pill of the panel *)
    destruct Hen as [artist [Hsel Hslot]].
    destruct (string_dec (selectedAvailability s) slot) as [Hcur | Hcur].
    + left. now apply handleAvailabilityClick_chosen.
    + right. exists artist.
      unfold handle, dispatch.
      rewrite (handleAvailabilityClick_other slot s Hcur).
      apply find_some in Hsel. destruct Hsel as [Hin Hid].
      apply filteredArtists_In in Hin. apply String.eqb_eq in Hid.
      now repeat split.
  - (* submit *)
    unfold handle, dispatch, handleSubmit.
    destruct (selectedArtist initialArtists s) as [artist |]; [| exact Hoffered].
    destruct (isEmpty (selectedAvailability s)); [exact Hoffered |].
    destruct (isEmpty (plannerName (formState s))
              || isEmpty (plannerEmail (formState s))); [exact Hoffered |].
    now left.
Qed.

Lemma reconcile_slotOffered (s : State) :
  slotOffered initialArtists s ->
  slotOffered initialArtists (reconcile initialArtists s).
Proof.
  intros Hoffered.
  destruct (selectionVisible_dec initialArtists s) as [Hvis | Hnot].
  - now rewrite reconcile_visible.
  - destruct (filteredArtists initialArtists s) as [| first rest] eqn:Hshown.
    + rewrite (reconcile_empty _ s Hshown). now left.
    + rewrite (reconcile_hidden _ s first rest Hshown Hnot). now left.
Qed.

Lemma reachable_slotOffered (s : State) :
  reachable initialArtists s -> slotOffered initialArtists s.
Proof.
  induction 1 as [| s e _ IH Hen].
  - apply reconcile_slotOffered. now left.
  - unfold step. now apply reconcile_slotOffered, handle_slotOffered.
Qed.

(** X14.  When the ids of the roster are pairwise distinct, a chosen slot
    is, in every reachable state, one of the availability slots of the
    artist the booking panel shows. *)
Theorem chosen_slot_is_offered (s : State) :
  NoDup (map id initialArtists) ->
  reachable initialArtists s ->
  selectedAvailability s <> EmptyString ->
  exists artist,
    selectedArtist initialArtists s = Some artist
    /\ In (selectedAvailability s) (availability artist).
Proof.
  intros Hids Hreach Hslot.
  destruct (reachable_slotOffered s Hreach) as [Hnone | [offering [Hin [Hid Hoff]]]];
    [contradiction |].
  destruct (reachable_reconciled _ s Hreach) as [[_ [_ Hnone]] | Hvis];
    [contradiction |].
  apply selectedArtist_shown in Hvis. destruct Hvis as [artist Hsel].
  exists artist. split; [exact Hsel |].
  apply find_some in Hsel. destruct Hsel as [Hshown Hsame].
  apply filteredArtists_In in Hshown. apply String.eqb_eq in Hsame.
  assert (Heq : artist = offering).
  { apply (unique_id initialArtists); try tauto. congruence. }
  now rewrite Heq.
Qed.

(** X15.  "Request" on the card of a displayed artist puts an artist with
    that id in the booking panel (that very artist when the ids of the
    roster are pairwise distinct), with no slot chosen and no status
    message. *)
Theorem request_click_selects (s : State) (artist : Artist) :
  enabled initialArtists s (ClickRequest artist) ->
  let s' := step initialArtists s (ClickRequest artist) in
  selectedArtistId s' = id artist
  /\ selectedAvailability s' = EmptyString
  /\ successMessage s' = None
  /\ filteredArtists initialArtists s' = filteredArtists initialArtists s
  /\ exists shown,
       selectedArtist initialArtists s' = Some shown
       /\ id shown = id artist
       /\ (NoDup (map id initialArtists) -> shown = artist).
Proof.
  intros Hen s'. simpl in Hen.
  assert (Hvis : selectionVisible initialArtists
                   (handle initialArtists s (ClickRequest artist))).
  { exists artist. split; [| reflexivity].
    erewrite filteredArtists_criteria; [exact Hen | reflexivity ..]. }
  assert (Hs' : s' = handle initialArtists s (ClickRequest artist)).
  { unfold s', step. now apply reconcile_visible. }
  rewrite Hs'. do 4 (split; [reflexivity |]).
  apply selectedArtist_shown in Hvis. destruct Hvis as [shown Hsel].
  exists shown. split; [exact Hsel |].
  apply find_some in Hsel. destruct Hsel as [Hshown Hsame].
  apply String.eqb_eq in Hsame. split; [exact Hsame |].
  intros Hids. apply (unique_id initialArtists); auto.
  - now apply filteredArtists_In in Hshown.
  - now apply filteredArtists_In in Hen.
Qed.

(** X16.  The status message changes only on a book click, which removes
    it, and on a submission, which always leaves one; filter changes, the
    effect, slot pills of the panel and typing in the form keep it. *)
Theorem successMessage_lifecycle (s : State) (e : Event) :
  match e with
  | ClickRequest _ | ClickCardSlot _ _ =>
      successMessage (step initialArtists s e) = None
  | Submit =>
      exists message, successMessage (step initialArtists s e) = Some message
  | _ => successMessage (step initialArtists s e) = successMessage s
  end.
Proof.
  assert (Hkeep : forall t, successMessage (reconcile initialArtists t)
                            = successMessage t).
  { intros t. unfold reconcile, reconcileEffect.
    destruct (filteredArtists initialArtists t); [reflexivity |].
    destruct (negb _); reflexivity. }
  unfold step.
  destruct e; rewrite ?Hkeep; try reflexivity.
  unfold handle, dispatch, handleSubmit.
  destruct (selectedArtist initialArtists s) as [artist |]; [| eexists; reflexivity].
  destruct (isEmpty (selectedAvailability s)); [eexists; reflexivity |].
  destruct (isEmpty (plannerName (formState s))
            || isEmpty (plannerEmail (formState s))); eexists; reflexivity.
Qed.

(** X17.  In every reachable state the genre criterion is "All" or a
    genre of some artist of the roster, and the location criterion is
    "All" or the location of some artist. *)
Theorem reachable_criteria_from_pills (s : State) :
  reachable initialArtists s ->
  (genreFilter s = "All"
   \/ exists artist, In artist initialArtists /\ In (genreFilter s) (genres artist))
  /\ (locationFilter s = "All"
      \/ exists artist, In artist initialArtists /\ location artist = locationFilter s).
Proof.
  induction 1 as [| s e _ IH Hen].
  - destruct (reconcile_criteria initialArtists (initialState initialArtists))
      as [Hg [Hl _]].
    rewrite Hg, Hl. split; now left.
  - unfold step.
    destruct (reconcile_criteria initialArtists (handle initialArtists s e))
      as [Hg [Hl _]].
    rewrite Hg, Hl. clear Hg Hl.
    assert (Hsubmit : genreFilter (handle initialArtists s Submit) = genreFilter s
                      /\ locationFilter (handle initialArtists s Submit)
                         = locationFilter s).
    { unfold handle, dispatch, handleSubmit.
      destruct (selectedArtist initialArtists s); [| now split].
      destruct (isEmpty (selectedAvailability s)); [now split |].
      destruct (isEmpty (plannerName (formState s))
                || isEmpty (plannerEmail (formState s))); now split. }
    destruct e as [genre | loc | value | value | artist | artist slot | slot
                   | field value |]; try exact IH.
    + split; [| exact (proj2 IH)]. simpl.
      destruct Hen as [Hall | Hpill]; [now left | right].
      unfold uniqueGenres in Hpill. rewrite nodup_In, in_flat_map in Hpill.
      exact Hpill.
    + split; [exact (proj1 IH) |]. simpl.
      destruct Hen as [Hall | Hpill]; [now left | right].
      unfold uniqueLocations in Hpill. rewrite nodup_In, in_map_iff in Hpill.
      destruct Hpill as [artist [Hloc Hin]]. now exists artist.
    + destruct Hsubmit as [Hg Hl]. now rewrite Hg, Hl.
Qed.

End ReachableStates.

Lemma chosen_slot_is_offered_witness :
  let s := step roster (step roster (initialState roster) (ClickGenre "House"))
                (ClickCardSlot orbit "Sun 14 Sep") in
  exists artist,
    selectedArtist roster s = Some artist
    /\ In (selectedAvailability s) (availability artist).
Proof.
  intros s. apply (chosen_slot_is_offered roster s).
  - repeat constructor; simpl; intuition discriminate.
  - apply reachable_step.
    + apply reachable_step; [apply reachable_initialState; repeat constructor; discriminate |].
      right. vm_compute. tauto.
    + split; [left; reflexivity | vm_compute; tauto].
  - discriminate.
Defined.

Lemma request_click_selects_witness :
  let s' := step roster readyState (ClickRequest vela) in
  selectedArtistId s' = "vela"
  /\ selectedAvailability s' = EmptyString
  /\ successMessage s' = None
  /\ filteredArtists roster s' = filteredArtists roster readyState
  /\ exists shown,
       selectedArtist roster s' = Some shown
       /\ id shown = "vela"
       /\ (NoDup (map id roster) -> shown = vela).
Proof.
  apply (request_click_selects roster readyState vela).
  right. left. reflexivity.
Defined.

Lemma reachable_criteria_from_pills_witness :
  let s := step roster (step roster (initialState roster) (ClickGenre "House"))
                (ClickLocation "Austin") in
  (genreFilter s = "All"
   \/ exists artist, In artist roster /\ In (genreFilter s) (genres artist))
  /\ (locationFilter s = "All"
      \/ exists artist, In artist roster /\ location artist = locationFilter s).
Proof.
  intros s. apply (reachable_criteria_from_pills roster s).
  apply reachable_step.
  - apply reachable_step; [apply reachable_initialState; repeat constructor; discriminate |].
    right. vm_compute. tauto.
  - right. vm_compute. tauto.
Defined.

(** ** The booking form *)

Section BookingForm.

Variable initialArtists : list Artist.

Lemma selectedArtist_criteria (s s' : State) :
  genreFilter s' = genreFilter s ->
  locationFilter s' = locationFilter s ->
  budget s' = budget s ->
  selectedArtistId s' = selectedArtistId s ->
  selectedArtist initialArtists s' = selectedArtist initialArtists s.
Proof.
  intros Hg Hl Hb Hid. unfold selectedArtist.
  rewrite (filteredArtists_criteria initialArtists s s' Hg Hl Hb).
  now rewrite Hid.
Qed.

Lemma reconcile_successMessage (s : State) :
  successMessage (reconcile initialArtists s) = successMessage s.
Proof.
  unfold reconcile, reconcileEffect.
  destruct (filteredArtists initialArtists s); [reflexivity |].
  destruct (negb _); reflexivity.
Qed.

(** X18.  A form change writes the field it names and no other; a second
    change of the same field replaces the first, changes of two different
    fields can be made in either order, writing back the value a field
    already has changes nothing, and no cell outside the form is
    touched. *)
Theorem handleFormChange_laws (s : State) (field other : FormField)
        (value value' : string) :
  fieldValue field (formState (handleFormChange field value s)) = value
  /\ (other <> field ->
      fieldValue other (formState (handleFormChange field value s))
      = fieldValue other (formState s))
  /\ handleFormChange field value' (handleFormChange field value s)
     = handleFormChange field value' s
  /\ (other <> field ->
      handleFormChange other value' (handleFormChange field value s)
      = handleFormChange field value (handleFormChange other value' s))
  /\ handleFormChange field (fieldValue field (formState s)) s = s
  /\ setFormState (formState s) (handleFormChange field value s) = s.
Proof.
  destruct s as [g l b t i a [pn pe ed] m].
  repeat split; try (destruct field; reflexivity);
    intros Hneq; destruct field, other; try reflexivity; contradiction.
Qed.

(** X19.  A successful submission cannot be repeated: submitting once
    more right after it shows the request for an artist and an
    availability, and the form stays empty and the selection in place. *)
Theorem submit_twice (s : State) (artist : Artist) :
  selectedArtist initialArtists s = Some artist ->
  selectedAvailability s <> EmptyString ->
  plannerName (formState s) <> EmptyString ->
  plannerEmail (formState s) <> EmptyString ->
  let s1 := step initialArtists s Submit in
  let s2 := step initialArtists s1 Submit in
  submitSucceeds initialArtists s
  /\ ~ submitSucceeds initialArtists s1
  /\ successMessage s2 = Some selectMessage
  /\ formState s2 = mkForm EmptyString EmptyString EmptyString
  /\ selectedAvailability s2 = EmptyString
  /\ selectedArtistId s2 = selectedArtistId s
  /\ selectedArtist initialArtists s2 = Some artist.
Proof.
  intros Hsel Hslot Hname Hmail s1 s2.
  pose proof (selectedArtist_visible _ s artist Hsel) as Hvis.
  assert (Hs1 : s1 = (setSuccessMessage
                        (Some (confirmationMessage (name artist)
                                                   (selectedAvailability s))) ;;
                      setFormState (mkForm EmptyString EmptyString EmptyString) ;;
                      setSelectedAvailability EmptyString) s).
  { unfold s1, step, handle, dispatch.
    rewrite (handleSubmit_accept _ s artist Hsel Hslot Hname Hmail).
    apply reconcile_visible.
    destruct Hvis as [shown [Hin Hid]]. exists shown. split; [| exact Hid].
    erewrite filteredArtists_criteria; [exact Hin | reflexivity ..]. }
  assert (Hsel1 : selectedArtist initialArtists s1 = Some artist).
  { rewrite <- Hsel, Hs1. now apply selectedArtist_criteria. }
  assert (Hs2 : s2 = setSuccessMessage (Some selectMessage) s1).
  { unfold s2, step, handle, dispatch.
    rewrite (handleSubmit_no_selection _ s1); [| right; now rewrite Hs1].
    apply reconcile_visible.
    destruct (selectedArtist_visible _ s1 artist Hsel1) as [shown [Hin Hid]].
    exists shown. split; [| exact Hid].
    erewrite filteredArtists_criteria; [exact Hin | reflexivity ..]. }
  split; [| split].
  - apply submitSucceeds_checks. split; [now exists artist | tauto].
  - intros Hagain. apply submitSucceeds_checks in Hagain.
    destruct Hagain as [_ [Hslot1 _]]. apply Hslot1. now rewrite Hs1.
  - rewrite Hs2. split; [reflexivity |].
    split; [now rewrite Hs1 |]. split; [now rewrite Hs1 |].
    split; [now rewrite Hs1 |].
    rewrite <- Hsel1. now apply selectedArtist_criteria.
Qed.

(** X20.  A submission refused for a missing name or email loses nothing:
    once both fields are filled in, the next submission succeeds for the
    same artist and slot. *)
Theorem submit_after_filling_contact (s : State) (artist : Artist)
        (plannerName' plannerEmail' : string) :
  selectedArtist initialArtists s = Some artist ->
  selectedAvailability s <> EmptyString ->
  plannerName (formState s) = EmptyString
  \/ plannerEmail (formState s) = EmptyString ->
  plannerName' <> EmptyString ->
  plannerEmail' <> EmptyString ->
  let refused := step initialArtists s Submit in
  let filled :=
    step initialArtists
         (step initialArtists refused (ChangeForm PlannerName plannerName'))
         (ChangeForm PlannerEmail plannerEmail') in
  ~ submitSucceeds initialArtists s
  /\ selectedAvailability filled = selectedAvailability s
  /\ eventDetails (formState filled) = eventDetails (formState s)
  /\ successMessage (step initialArtists filled Submit)
     = Some (confirmationMessage (name artist) (selectedAvailability s)).
Proof.
  intros Hsel Hslot Hblank Hname Hmail refused filled.
  assert (Hstay : forall t u,
             selectedArtist initialArtists t = Some artist ->
             genreFilter u = genreFilter t ->
             locationFilter u = locationFilter t ->
             budget u = budget t ->
             selectedArtistId u = selectedArtistId t ->
             reconcile initialArtists u = u
             /\ selectedArtist initialArtists u = Some artist).
  { intros t u Ht Hg Hl Hb Hid.
    assert (Hu : selectedArtist initialArtists u = Some artist)
      by (rewrite <- Ht; now apply selectedArtist_criteria).
    split; [| exact Hu].
    apply reconcile_visible. exact (selectedArtist_visible _ u artist Hu). }
  assert (Hrefused : refused = setSuccessMessage (Some contactMessage) s).
  { unfold refused, step, handle, dispatch.
    rewrite (handleSubmit_no_contact _ s artist Hsel Hslot Hblank).
    now apply (Hstay s). }
  assert (Hfilled : filled
                    = handleFormChange PlannerEmail plannerEmail'
                        (handleFormChange PlannerName plannerName' refused)).
  { unfold filled, step, handle, dispatch. rewrite Hrefused.
    destruct (Hstay s (handleFormChange PlannerName plannerName'
                         (setSuccessMessage (Some contactMessage) s)) Hsel)
      as [Hfix1 Hsel1]; try reflexivity.
    rewrite Hfix1.
    now destruct (Hstay _ (handleFormChange PlannerEmail plannerEmail'
                             (handleFormChange PlannerName plannerName'
                                (setSuccessMessage (Some contactMessage) s)))
                        Hsel1) as [Hfix2 _]. }
  assert (Hself : selectedArtist initialArtists filled = Some artist).
  { rewrite <- Hsel, Hfilled, Hrefused. now apply selectedArtist_criteria. }
  split; [| split; [| split]].
  - intros Hok. apply submitSucceeds_checks in Hok. tauto.
  - now rewrite Hfilled, Hrefused.
  - now rewrite Hfilled, Hrefused.
  - unfold step. rewrite reconcile_successMessage.
    unfold handle, dispatch.
    rewrite (handleSubmit_accept _ filled artist Hself);
      rewrite Hfilled, Hrefused; simpl; auto.
Qed.

End BookingForm.

Lemma handleFormChange_laws_witness :
  let s := handleFormChange PlannerName "Sam Park" readyState in
  plannerName (formState s) = "Sam Park"
  /\ plannerEmail (formState s) = "jordan@brand.com"
  /\ handleFormChange EventDetails "Pier 4" s
     = handleFormChange PlannerName "Sam Park"
         (handleFormChange EventDetails "Pier 4" readyState).
Proof.
  intros s.
  destruct (handleFormChange_laws readyState PlannerName PlannerEmail
                                  "Sam Park" "Pier 4")
    as [Hwritten [Hkept _]].
  destruct (handleFormChange_laws readyState PlannerName EventDetails
                                  "Sam Park" "Pier 4")
    as [_ [_ [_ [Hswap _]]]].
  split; [exact Hwritten | split].
  - apply Hkept. discriminate.
  - apply Hswap. discriminate.
Defined.

Lemma submit_twice_witness :
  let s1 := step roster readyState Submit in
  let s2 := step roster s1 Submit in
  submitSucceeds roster readyState
  /\ ~ submitSucceeds roster s1
  /\ successMessage s2 = Some selectMessage
  /\ formState s2 = mkForm EmptyString EmptyString EmptyString
  /\ selectedAvailability s2 = EmptyString
  /\ selectedArtistId s2 = selectedArtistId readyState
  /\ selectedArtist roster s2 = Some lumen.
Proof.
  apply (submit_twice roster readyState lumen);
    [reflexivity | discriminate ..].
Defined.

Lemma submit_after_filling_contact_witness :
  let s := handleFormChange PlannerEmail EmptyString readyState in
  let refused := step roster s Submit in
  let filled :=
    step roster (step roster refused (ChangeForm PlannerName "Sam Park"))
         (ChangeForm PlannerEmail "sam@venue.org") in
  ~ submitSucceeds roster s
  /\ selectedAvailability filled = selectedAvailability s
  /\ eventDetails (formState filled) = eventDetails (formState s)
  /\ successMessage (step roster filled Submit)
     = Some (confirmationMessage (name lumen) (selectedAvailability s)).
Proof.
  intros s.
  apply (submit_after_filling_contact roster s lumen "Sam Park" "sam@venue.org").
  - reflexivity.
  - discriminate.
  - right. reflexivity.
  - discriminate.
  - discriminate.
Defined.

(** ** Booking from a card, and the showcase counter *)

Section CardBooking.

Variable initialArtists : list Artist.

(** X21.  Booking from a card: with pairwise distinct ids and the contact
    fields filled in, a click on a slot pill of a displayed artist's card
    followed by a submission confirms that artist on that slot, whatever
    was selected or chosen before. *)
Theorem card_slot_then_submit (s : State) (artist : Artist) (slot : string) :
  NoDup (map id initialArtists) ->
  enabled initialArtists s (ClickCardSlot artist slot) ->
  slot <> EmptyString ->
  plannerName (formState s) <> EmptyString ->
  plannerEmail (formState s) <> EmptyString ->
  let picked := step initialArtists s (ClickCardSlot artist slot) in
  selectedArtist initialArtists picked = Some artist
  /\ selectedAvailability picked = slot
  /\ successMessage (step initialArtists picked Submit)
     = Some (confirmationMessage (name artist) slot).
Proof.
  intros Hids [Hshown Hoffered] Hslot Hname Hmail picked.
  assert (Hpicked : picked = handle initialArtists s (ClickCardSlot artist slot)).
  { unfold picked, step. apply reconcile_visible.
    now apply handleBookClick_visible. }
  assert (Hchosen : selectedAvailability picked = slot).
  { rewrite Hpicked. unfold handle, dispatch, seqUpdate.
    now apply handleAvailabilityClick_none. }
  assert (Hsel : selectedArtist initialArtists picked = Some artist).
  { assert (Hvis : selectionVisible initialArtists picked).
    { rewrite Hpicked. now apply handleBookClick_visible. }
    apply selectedArtist_shown in Hvis. destruct Hvis as [shown Hsel].
    rewrite Hsel. f_equal.
    apply find_some in Hsel. destruct Hsel as [Hin Hid].
    apply String.eqb_eq in Hid.
    apply (unique_id initialArtists); auto.
    - now apply filteredArtists_In in Hin.
    - now apply filteredArtists_In in Hshown.
    - rewrite Hid, Hpicked. reflexivity. }
  split; [exact Hsel | split; [exact Hchosen |]].
  unfold step. rewrite reconcile_successMessage. unfold handle at 1, dispatch.
  rewrite (handleSubmit_accept _ picked artist Hsel).
  - simpl. now rewrite Hchosen.
  - now rewrite Hchosen.
  - now rewrite Hpicked.
  - now rewrite Hpicked.
Qed.

Lemma fold_showcases (l : list Artist) (start : nat) :
  fold_left (fun count artist => (count + List.length (showcases artist))%nat)
            l start
  = (start + List.length (flat_map showcases l))%nat.
Proof.
  revert start. induction l as [| a l IH]; intros start; simpl.
  - now rewrite Nat.add_0_r.
  - rewrite IH, length_app. now rewrite Nat.add_assoc.
Qed.

(** X22.  The showcase counter of the hero section is the number of
    showcases of all artists taken together; it is additive over a roster
    made of two parts and therefore does not depend on the order of the
    artists. *)
Theorem totalShowcases_counts_all (front back : list Artist) :
  totalShowcases initialArtists
  = List.length (flat_map showcases initialArtists)
  /\ totalShowcases (front ++ back)
     = (totalShowcases front + totalShowcases back)%nat
  /\ totalShowcases (back ++ front) = totalShowcases (front ++ back).
Proof.
  assert (Hcount : forall l, totalShowcases l = List.length (flat_map showcases l)).
  { intros l. unfold totalShowcases. now rewrite fold_showcases. }
  assert (Hadd : forall l1 l2, totalShowcases (l1 ++ l2)
                               = (totalShowcases l1 + totalShowcases l2)%nat).
  { intros l1 l2. rewrite !Hcount, flat_map_app. apply length_app. }
  split; [apply Hcount | split; [apply Hadd |]].
  rewrite !Hadd. apply Nat.add_comm.
Qed.

End CardBooking.

Lemma card_slot_then_submit_witness :
  let picked := step roster readyState (ClickCardSlot vela "Sat 13 Sep") in
  selectedArtist roster picked = Some vela
  /\ selectedAvailability picked = "Sat 13 Sep"
  /\ successMessage (step roster picked Submit)
     = Some (confirmationMessage "Vela Rey" "Sat 13 Sep").
Proof.
  apply (card_slot_then_submit roster readyState vela "Sat 13 Sep").
  - repeat constructor; simpl; intuition discriminate.
  - split; [right; left; reflexivity | left; reflexivity].
  - discriminate.
  - discriminate.
  - discriminate.
Defined.
